(** * Prefetcher: a read-ahead scheduler over per-source caches

    Shallow embedding of [media/libstagefright/Prefetcher.cpp].

    Every method of [PrefetchedSource] runs under the cache's [mLock], so a
    method is one atomic transformation of the cache's fields.  Calls that
    leave the cache (into the wrapped [MediaSource], [MediaBuffer::release],
    [Condition::signal]) are recorded as a trace of events next to the new
    state; in a trace of the scheduler, [InSource i e] is the event [e] of
    the cache registered [i]-th and a bare condition event is one on the
    scheduler's own [mCondition].  A failed [CHECK] aborts the process: the computation stops with
    the events issued so far.  [Condition::wait] inside [read] is a result of
    its own ([ReadBlocked]): the reader sleeps with the lock released and
    re-enters the wait loop on whatever state it finds when woken. *)

From Stdlib Require Import ZArith Lia.
From stdpp Require Import base option list gmap.

Local Open Scope Z_scope.

(** ** Machine integers *)

Definition int64_min : Z := - 2 ^ 63.
Definition int64_max : Z := 2 ^ 63 - 1.

Definition is_int64 (z : Z) : Prop := int64_min <= z <= int64_max.

(** Two's-complement reduction of a mathematical integer to [int64_t]. *)
Definition int64_wrap (z : Z) : Z := (z + 2 ^ 63) mod 2 ^ 64 - 2 ^ 63.

(** [a - b] on [int64_t]. *)
Definition int64_sub (a b : Z) : Z := int64_wrap (a - b).

(** ** Status codes *)

Definition status_t : Type := Z.

(** Modelled from the spec: [MediaErrors.h] is not among the sources.  [OK]
    is success; end-of-stream is "a distinguished result, not a generic
    error".  The numeric values are those of the framework header. *)
Definition OK : status_t := 0.
Definition ERROR_END_OF_STREAM : status_t := -1011.

(** ** Buffers and their metadata *)

(** Modelled from the spec: [MetaData.h] and [MediaBuffer.h] are not among
    the sources.  A buffer exposes "payload bytes, a byte-range view, an
    associated metadata map (must support a presentation timestamp key), and
    an explicit release operation".  The map keeps the [int64_t] entries,
    the only ones [findInt64] can see. *)
Abbreviation MetaData := (gmap N Z).

Definition kKeyTime : N := 0x74696d65%N.

Definition findInt64 (key : N) (m : MetaData) : option Z := m !! key.
Definition setInt64 (key : N) (v : Z) (m : MetaData) : MetaData := <[key := v]> m.

Record MediaBuffer : Type := mkMediaBuffer {
  data : list Z;
  range_offset : nat;
  range_length : nat;
  meta_data : MetaData
}.

(** [new MediaBuffer(size)]: fresh payload, whole-buffer range, no metadata. *)
Definition new_MediaBuffer (size : nat) : MediaBuffer :=
  {| data := replicate size 0; range_offset := 0%nat; range_length := size;
     meta_data := ∅ |}.

(** [memcpy(dst, src, n)] on payloads. *)
Definition memcpy (dst src : list Z) (n : nat) : list Z :=
  take n src ++ drop n dst.

Definition set_data (d : list Z) (b : MediaBuffer) : MediaBuffer :=
  {| data := d; range_offset := range_offset b; range_length := range_length b;
     meta_data := meta_data b |}.

Definition set_meta_data (m : MetaData) (b : MediaBuffer) : MediaBuffer :=
  {| data := data b; range_offset := range_offset b;
     range_length := range_length b; meta_data := m |}.

(** The presentation timestamp of a buffer, when it carries one. *)
Definition timestamp (b : MediaBuffer) : option Z :=
  findInt64 kKeyTime (meta_data b).

(** ** Read options *)

Record ReadOptions : Type := mkReadOptions { seek_to : option Z }.

Definition no_options : ReadOptions := {| seek_to := None |}.
Definition setSeekTo (t : Z) (o : ReadOptions) : ReadOptions := {| seek_to := Some t |}.
Definition getSeekTo (o : ReadOptions) : option Z := seek_to o.

(** ** The wrapped source *)

(** The [MediaSource] interface as the cache consumes it.  The source is an
    external collaborator with a state of its own. *)
Class MediaSource (Src : Type) : Type := {
  source_start : option MetaData -> Src -> status_t * Src;
  source_stop : Src -> status_t * Src;
  source_read : ReadOptions -> Src -> (status_t * option MediaBuffer) * Src;
  source_getFormat : Src -> MetaData
}.

(** ** Events and the method monad *)

Inductive Event : Type :=
| SourceStart (params : option MetaData)
| SourceStop
| SourceRead (options : ReadOptions)
| BufferRelease (b : MediaBuffer)
| CondSignal
| CondWait
| CondWaitRelative (reltime : Z)
| InSource (index : nat) (e : Event).

Inductive Outcome (St A : Type) : Type :=
| Done (a : A) (s : St) (tr : list Event)
| Aborted (tr : list Event).

Arguments Done {St A} a s tr.
Arguments Aborted {St A} tr.

Definition M (St A : Type) : Type := St -> Outcome St A.

Definition M_ret {St A} (a : A) : M St A := fun s => Done a s [].

Definition M_bind {St A B} (k : A -> M St B) (m : M St A) : M St B :=
  fun s =>
    match m s with
    | Done a s1 t1 =>
        match k a s1 with
        | Done b s2 t2 => Done b s2 (t1 ++ t2)
        | Aborted t2 => Aborted (t1 ++ t2)
        end
    | Aborted t1 => Aborted t1
    end.

#[export] Instance M_mret {St} : MRet (M St) := @M_ret St.
#[export] Instance M_mbind {St} : MBind (M St) := @M_bind St.

Definition gets {St A} (f : St -> A) : M St A := fun s => Done (f s) s [].
Definition modify {St} (f : St -> St) : M St unit := fun s => Done tt (f s) [].
Definition emit {St} (e : Event) : M St unit := fun s => Done tt s [e].

(** [CHECK(cond)]: abort the process unless [cond] holds. *)
Definition CHECK {St} (cond : bool) : M St unit :=
  fun s => if cond then Done tt s [] else Aborted [].

(** [CHECK(find(...))] with an out-parameter. *)
Definition CHECK_some {St A} (o : option A) : M St A :=
  fun s => match o with Some a => Done a s [] | None => Aborted [] end.

(** ** The per-source cache *)

Record PrefetchedSource (Src : Type) : Type := mkPrefetchedSource {
  mSource : Src;
  mIndex : nat;
  mStarted : bool;
  mReachedEOS : bool;
  mSeekTimeUs : Z;
  mCacheDurationUs : Z;
  mPrefetcherStopped : bool;
  mCachedBuffers : list MediaBuffer
}.

Arguments mkPrefetchedSource {Src}.
Arguments mSource {Src}.
Arguments mIndex {Src}.
Arguments mStarted {Src}.
Arguments mReachedEOS {Src}.
Arguments mSeekTimeUs {Src}.
Arguments mCacheDurationUs {Src}.
Arguments mPrefetcherStopped {Src}.
Arguments mCachedBuffers {Src}.

Section Setters.
Context {Src : Type}.
Implicit Type s : PrefetchedSource Src.

Definition set_mSource (x : Src) s :=
  mkPrefetchedSource x (mIndex s) (mStarted s) (mReachedEOS s) (mSeekTimeUs s)
    (mCacheDurationUs s) (mPrefetcherStopped s) (mCachedBuffers s).
Definition set_mStarted (x : bool) s :=
  mkPrefetchedSource (mSource s) (mIndex s) x (mReachedEOS s) (mSeekTimeUs s)
    (mCacheDurationUs s) (mPrefetcherStopped s) (mCachedBuffers s).
Definition set_mReachedEOS (x : bool) s :=
  mkPrefetchedSource (mSource s) (mIndex s) (mStarted s) x (mSeekTimeUs s)
    (mCacheDurationUs s) (mPrefetcherStopped s) (mCachedBuffers s).
Definition set_mSeekTimeUs (x : Z) s :=
  mkPrefetchedSource (mSource s) (mIndex s) (mStarted s) (mReachedEOS s) x
    (mCacheDurationUs s) (mPrefetcherStopped s) (mCachedBuffers s).
Definition set_mCacheDurationUs (x : Z) s :=
  mkPrefetchedSource (mSource s) (mIndex s) (mStarted s) (mReachedEOS s)
    (mSeekTimeUs s) x (mPrefetcherStopped s) (mCachedBuffers s).
Definition set_mPrefetcherStopped (x : bool) s :=
  mkPrefetchedSource (mSource s) (mIndex s) (mStarted s) (mReachedEOS s)
    (mSeekTimeUs s) (mCacheDurationUs s) x (mCachedBuffers s).
Definition set_mCachedBuffers (x : list MediaBuffer) s :=
  mkPrefetchedSource (mSource s) (mIndex s) (mStarted s) (mReachedEOS s)
    (mSeekTimeUs s) (mCacheDurationUs s) (mPrefetcherStopped s) x.
End Setters.

(** [PrefetchedSource::PrefetchedSource(index, source)]. *)
Definition new_PrefetchedSource {Src} (index : nat) (source : Src) : PrefetchedSource Src :=
  {| mSource := source; mIndex := index; mStarted := false;
     mReachedEOS := false; mSeekTimeUs := 0; mCacheDurationUs := 0;
     mPrefetcherStopped := false; mCachedBuffers := [] |}.

(** What a call of [read] comes to: it returns a status and the out-parameter,
    or the caller sleeps in [mCondition.wait]. *)
Inductive ReadResult : Type :=
| ReadReturned (err : status_t) (out : option MediaBuffer)
| ReadBlocked.

Section Cache.
Context {Src : Type} `{MediaSource Src}.

Abbreviation PS := (PrefetchedSource Src).
Abbreviation Cache := (M (PrefetchedSource Src)).

(** Calls into [mSource]. *)
Definition call_source_start (params : option MetaData) : Cache status_t :=
  fun s =>
    let '(err, src) := source_start params (mSource s) in
    Done err (set_mSource src s) [SourceStart params].

Definition call_source_stop : Cache status_t :=
  fun s =>
    let '(err, src) := source_stop (mSource s) in
    Done err (set_mSource src s) [SourceStop].

Definition call_source_read (options : ReadOptions)
  : Cache (status_t * option MediaBuffer) :=
  fun s =>
    let '(r, src) := source_read options (mSource s) in
    Done r (set_mSource src s) [SourceRead options].

(** [PrefetchedSource::updateCacheDuration_l]. *)
Definition updateCacheDuration_l : Cache unit :=
  bufs ← gets mCachedBuffers;
  if (length bufs <? 2)%nat then
    modify (set_mCacheDurationUs 0)
  else
    firstTimeUs ← CHECK_some (head bufs ≫= timestamp);
    lastTimeUs ← CHECK_some (last bufs ≫= timestamp);
    modify (set_mCacheDurationUs (int64_sub lastTimeUs firstTimeUs)).

(** The loop of [PrefetchedSource::clearCache_l]: release and erase from
    the front until the list is empty. *)
Fixpoint release_all (bufs : list MediaBuffer) : Cache unit :=
  match bufs with
  | [] => mret tt
  | b :: rest =>
      emit (BufferRelease b);;
      modify (set_mCachedBuffers rest);;
      release_all rest
  end.

(** [PrefetchedSource::clearCache_l]. *)
Definition clearCache_l : Cache unit :=
  bufs ← gets mCachedBuffers;
  release_all bufs;;
  updateCacheDuration_l.

(** [PrefetchedSource::start]. *)
Definition start (params : option MetaData) : Cache status_t :=
  started ← gets mStarted;
  CHECK (negb started);;
  err ← call_source_start params;
  if negb (err =? OK) then mret err
  else
    modify (set_mStarted true);;
    mret OK.

(** [PrefetchedSource::stop]. *)
Definition stop : Cache status_t :=
  started ← gets mStarted;
  CHECK started;;
  clearCache_l;;
  err ← call_source_stop;
  modify (set_mStarted false);;
  mret err.

(** The wait loop of [read] and what follows it.  When the loop condition
    holds the caller sleeps; a woken caller runs [read_loop] again. *)
Definition read_loop : Cache ReadResult :=
  stopped ← gets mPrefetcherStopped;
  eos ← gets mReachedEOS;
  bufs ← gets mCachedBuffers;
  if negb stopped && negb eos && bool_decide (bufs = []) then
    emit CondWait;;
    mret ReadBlocked
  else
    match bufs with
    | [] => mret (ReadReturned ERROR_END_OF_STREAM None)
    | b :: rest =>
        modify (set_mCachedBuffers rest);;
        updateCacheDuration_l;;
        mret (ReadReturned OK (Some b))
    end.

(** [PrefetchedSource::read], up to its first sleep or its return. *)
Definition read (options : option ReadOptions) : Cache ReadResult :=
  started ← gets mStarted;
  CHECK started;;
  match options ≫= getSeekTo with
  | Some seekTimeUs =>
      CHECK (0 <=? seekTimeUs);;
      clearCache_l;;
      modify (set_mReachedEOS false);;
      modify (set_mSeekTimeUs seekTimeUs)
  | None => mret tt
  end;;
  read_loop.

(** [PrefetchedSource::getFormat]. *)
Definition getFormat (s : PS) : MetaData := source_getFormat (mSource s).

(** [PrefetchedSource::getCacheDurationUs]: the duration written to the
    out-parameter and the flag returned. *)
Definition getCacheDurationUs (s : PS) : bool * Z :=
  if negb (mStarted s) || mReachedEOS s then (false, 0)
  else (true, mCacheDurationUs s).

(** The copy [cacheMore] makes of a buffer of the source. *)
Definition copy_buffer (buffer : MediaBuffer) : MediaBuffer :=
  let copy := new_MediaBuffer (range_length buffer) in
  let copy :=
    set_data (memcpy (data copy) (drop (range_offset buffer) (data buffer))
                (range_length buffer)) copy in
  match findInt64 kKeyTime (meta_data buffer) with
  | Some timeUs => set_meta_data (setInt64 kKeyTime timeUs (meta_data copy)) copy
  | None => copy
  end.

(** [PrefetchedSource::cacheMore]. *)
Definition cacheMore : Cache unit :=
  started ← gets mStarted;
  if negb started then mret tt
  else
    seekTimeUs ← gets mSeekTimeUs;
    options ←
      (if 0 <=? seekTimeUs then
         modify (set_mSeekTimeUs (-1));;
         mret (setSeekTo seekTimeUs no_options)
       else mret no_options);
    '(err, buffer) ← call_source_read options;
    if negb (err =? OK) then
      modify (set_mReachedEOS true);;
      emit CondSignal
    else
      buffer ← CHECK_some buffer;
      let copy := copy_buffer buffer in
      emit (BufferRelease buffer);;
      bufs ← gets mCachedBuffers;
      modify (set_mCachedBuffers (bufs ++ [copy]));;
      updateCacheDuration_l;;
      emit CondSignal.

(** [PrefetchedSource::onPrefetcherStopped]. *)
Definition onPrefetcherStopped : Cache unit :=
  modify (set_mPrefetcherStopped true);;
  emit CondSignal.

(** [PrefetchedSource::~PrefetchedSource]. *)
Definition destroy : Cache unit :=
  started ← gets mStarted;
  if (started : bool) then stop;; mret tt else mret tt.

End Cache.

(** The events of an outcome, and its value when it has one. *)
Definition events_of {St A} (o : Outcome St A) : list Event :=
  match o with Done _ _ tr => tr | Aborted tr => tr end.

Definition value_of {St A} (o : Outcome St A) : option A :=
  match o with Done a _ _ => Some a | Aborted _ => None end.

(** ** The scheduler *)

(** [mSources] is a vector of weak references, indexed by registration
    order.  An entry holds the cache object it refers to while some strong
    holder keeps it alive and [None] once [promote()] would return NULL. *)
Record Prefetcher (Src : Type) : Type := mkPrefetcher {
  mSources : list (option (PrefetchedSource Src));
  mDone : bool;
  mThreadExited : bool
}.

Arguments mkPrefetcher {Src}.
Arguments mSources {Src}.
Arguments mDone {Src}.
Arguments mThreadExited {Src}.

(** Cache about 10secs for each source. *)
Definition kMaxCacheDurationUs : Z := 10000000.

Inductive LoopStep : Type := LoopBreak | LoopContinue.

Section Scheduler.
Context {Src : Type} `{MediaSource Src}.

Abbreviation PS := (PrefetchedSource Src).
Abbreviation Sched := (M (Prefetcher Src)).

Definition set_mSources (x : list (option PS)) (p : Prefetcher Src) : Prefetcher Src :=
  mkPrefetcher x (mDone p) (mThreadExited p).
Definition set_mDone (x : bool) (p : Prefetcher Src) : Prefetcher Src :=
  mkPrefetcher (mSources p) x (mThreadExited p).
Definition set_mThreadExited (x : bool) (p : Prefetcher Src) : Prefetcher Src :=
  mkPrefetcher (mSources p) (mDone p) x.

(** A method call on the cache object registered at [index], of which the
    caller holds the strong reference [source]: the object is updated in
    place and its events are attributed to it.  [index] is that of an entry
    just read from the registry, hence in range. *)
Definition on_source {A} (index : nat) (source : PS) (m : M PS A) : Sched A :=
  fun p =>
    match m source with
    | Done a source' tr =>
        Done a (set_mSources (<[index := Some source']> (mSources p)) p)
          (InSource index <$> tr)
    | Aborted tr => Aborted (InSource index <$> tr)
    end.

(** [Prefetcher::Prefetcher] as [startThread] leaves it. *)
Definition new_Prefetcher : Prefetcher Src :=
  {| mSources := []; mDone := false; mThreadExited := false |}.

(** [Prefetcher::addSource]; the strong reference it returns is the index
    of the new object. *)
Definition addSource (source : Src) : Sched nat :=
  srcs ← gets mSources;
  let psource := new_PrefetchedSource (length srcs) source in
  modify (set_mSources (srcs ++ [Some psource]));;
  mret (length srcs).

(** [for (size_t i = 0; i < mSources.size(); ++i)] over a loop state. *)
Fixpoint for_sources {A} (body : nat -> option PS -> A -> A)
    (i : nat) (srcs : list (option PS)) (acc : A) : A :=
  match srcs with
  | [] => acc
  | wp :: rest => for_sources body (S i) rest (body i wp acc)
  end.

(** The loop state of the scan in [threadFunc]. *)
Record ScanState : Type := mkScanState {
  minCacheDurationUs : Z;
  minIndex : Z;
  minSource : option PS
}.

(** The body of the scan in [threadFunc]. *)
Definition threadFunc_scan_body (i : nat) (wp : option PS) (st : ScanState)
    : ScanState :=
  match wp with
  | None => st
  | Some source =>
      let '(caching, cacheDurationUs) := getCacheDurationUs source in
      if negb caching then st
      else if kMaxCacheDurationUs <=? cacheDurationUs then st
      else if (minIndex st <? 0) || (cacheDurationUs <? minCacheDurationUs st)
      then {| minCacheDurationUs := cacheDurationUs;
              minIndex := Z.of_nat i;
              minSource := Some source |}
      else st
  end.

Definition threadFunc_scan (srcs : list (option PS)) : ScanState :=
  for_sources threadFunc_scan_body 0
    srcs {| minCacheDurationUs := -1; minIndex := -1; minSource := None |}.

(** One turn of the [for (;;)] loop of [threadFunc], taken in one piece:
    the selected cache is the same when [cacheMore] runs on it as when the
    scan read it. *)
Definition threadFunc_iteration : Sched LoopStep :=
  done ← gets mDone;
  if (done : bool) then mret LoopBreak
  else
    emit (CondWaitRelative 10000000);;
    srcs ← gets mSources;
    let st := threadFunc_scan srcs in
    if minIndex st <? 0 then mret LoopContinue
    else
      match minSource st with
      | Some source =>
          on_source (Z.to_nat (minIndex st)) source cacheMore;;
          mret LoopContinue
      | None => mret LoopContinue
      end.

(** The loop after the [for (;;)] of [threadFunc]. *)
Fixpoint threadFunc_notify (i : nat) (srcs : list (option PS)) : Sched unit :=
  match srcs with
  | [] => mret tt
  | None :: rest => threadFunc_notify (S i) rest
  | Some source :: rest =>
      on_source i source onPrefetcherStopped;;
      threadFunc_notify (S i) rest
  end.

(** What [threadFunc] does once it has left its loop. *)
Definition threadFunc_exit : Sched unit :=
  srcs ← gets mSources;
  threadFunc_notify 0 srcs;;
  modify (set_mThreadExited true);;
  emit CondSignal.

(** [Prefetcher::threadFunc] run for at most [turns] turns of its loop
    without interference; [false] when the loop is still running then. *)
Fixpoint threadFunc (turns : nat) : Sched bool :=
  match turns with
  | O => mret false
  | S n =>
      step ← threadFunc_iteration;
      match step with
      | LoopBreak => threadFunc_exit;; mret true
      | LoopContinue => threadFunc n
      end
  end.

(** [Prefetcher::stopThread] up to its return ([true]) or its first sleep
    in [mCondition.wait] ([false]); a woken caller runs it again. *)
Definition stopThread : Sched bool :=
  exited ← gets mThreadExited;
  if negb exited then
    modify (set_mDone true);;
    emit CondSignal;;
    emit CondWait;;
    mret false
  else mret true.

(** The body of the scan in [getCachedDurationUs], on the pair
    [(minCacheDurationUs, minIndex)]. *)
Definition getCachedDurationUs_body (i : nat) (wp : option PS) (st : Z * Z)
    : Z * Z :=
  match wp with
  | None => st
  | Some source =>
      let '(caching, cacheDurationUs) := getCacheDurationUs source in
      if negb caching then st
      else if kMaxCacheDurationUs <=? cacheDurationUs then st
      else if (st.2 <? 0) || (cacheDurationUs <? st.1)
      then (cacheDurationUs, Z.of_nat i)
      else st
  end.

(** [Prefetcher::getCachedDurationUs] called with a non-NULL [noMoreData]:
    the value returned and the flag stored. *)
Definition getCachedDurationUs (p : Prefetcher Src) : Z * bool :=
  let st := for_sources getCachedDurationUs_body 0 (mSources p) (-1, -1) in
  (if st.1 <? 0 then 0 else st.1, st.1 <? 0).

(** [Prefetcher::prepare].  Every poll takes the registry lock anew, and
    other threads run between two polls: [polls] lists the scheduler as
    each successive poll finds it.  [None]: still polling after them. *)
Fixpoint prepare (polls : list (Prefetcher Src)) : option status_t :=
  match polls with
  | [] => None
  | p :: later =>
      let '(duration, noMoreData) := getCachedDurationUs p in
      if negb noMoreData && (duration <? 2000000) then prepare later
      else Some OK
  end.

(** Events issued before an outcome. *)
Definition after_events {St A} (tr : list Event) (o : Outcome St A) : Outcome St A :=
  match o with
  | Done a s tr' => Done a s (tr ++ tr')
  | Aborted tr' => Aborted (tr ++ tr')
  end.

(** A call of [read] followed through its sleeps.  A reader asleep in
    [mCondition.wait] is woken once per element of [wakeups], each the cache
    as the reader finds it after re-taking the lock; [o] is the outcome so
    far.  [ReadBlocked] at the end: still asleep after the last wake-up. *)
Fixpoint read_woken (wakeups : list PS) (o : Outcome PS ReadResult)
    : Outcome PS ReadResult :=
  match wakeups with
  | [] => o
  | s :: later =>
      match o with
      | Done ReadBlocked _ tr => after_events tr (read_woken later (read_loop s))
      | _ => o
      end
  end.

(** A call of [stopThread] followed through its sleeps: the caller is
    woken once per element of [wakeups], each the scheduler as the caller
    finds it after re-taking the lock, and runs the loop again. *)
Fixpoint stopThread_woken (wakeups : list (Prefetcher Src))
    (o : Outcome (Prefetcher Src) bool) : Outcome (Prefetcher Src) bool :=
  match wakeups with
  | [] => o
  | p :: later =>
      match o with
      | Done false _ tr => after_events tr (stopThread_woken later (stopThread p))
      | _ => o
      end
  end.

End Scheduler.

(** ** Vocabulary of the specification *)

Section Vocabulary.
Context {Src : Type} `{MediaSource Src}.

Abbreviation PS := (PrefetchedSource Src).

(** "Eligible: a cache is started, not at end-of-stream, and below the
    target buffering ceiling." *)
Definition eligible (s : PS) : Prop :=
  mStarted s = true /\ mReachedEOS s = false /\
  mCacheDurationUs s < kMaxCacheDurationUs.

(** No resolvable entry of the registry is eligible. *)
Definition none_eligible (srcs : list (option PS)) : Prop :=
  forall j sj, srcs !! j = Some (Some sj) -> ~ eligible sj.

(** Entry [i] resolves to [s], which is eligible and buffers no more than
    any eligible entry, and strictly less than those registered before it:
    "the strictly smallest buffered duration; on ties, the
    earliest-registered". *)
Definition least_buffered (srcs : list (option PS)) (i : nat) (s : PS) : Prop :=
  srcs !! i = Some (Some s) /\ eligible s /\
  forall j sj, srcs !! j = Some (Some sj) -> eligible sj ->
    mCacheDurationUs s <= mCacheDurationUs sj /\
    (mCacheDurationUs sj = mCacheDurationUs s -> (i <= j)%nat).

(** A registry entry once [onPrefetcherStopped] has been called on the
    object it resolves to, if any. *)
Definition notified (wp : option PS) : option PS :=
  match wp with
  | Some s => Some (set_mPrefetcherStopped true s)
  | None => None
  end.

(** What the scan of [threadFunc] has found in the entries it has seen. *)
Definition scan_result (srcs : list (option PS)) (st : ScanState) : Prop :=
  (none_eligible srcs /\ minIndex st = -1 /\ minCacheDurationUs st = -1 /\
   minSource st = None) \/
  (exists i s, least_buffered srcs i s /\ minIndex st = Z.of_nat i /\
               minCacheDurationUs st = mCacheDurationUs s /\
               minSource st = Some s).

(** "Duration = timestamp(newest queued) - timestamp(oldest queued) when
    at least two buffers are queued, else 0", the subtraction being that of
    [int64_t]; undefined when one of the two carries no timestamp. *)
Definition queue_span (bufs : list MediaBuffer) : option Z :=
  match bufs with
  | [] | [_] => Some 0
  | oldest :: _ =>
      match timestamp oldest, last bufs ≫= timestamp with
      | Some t_old, Some t_new => Some (int64_sub t_new t_old)
      | _, _ => None
      end
  end.

(** The invariant of the data model: "buffered duration is always the
    timestamp delta between the oldest and newest buffer currently queued,
    or 0 when fewer than two buffers are queued". *)
Definition duration_consistent (s : PS) : Prop :=
  ((length (mCachedBuffers s) < 2)%nat -> mCacheDurationUs s = 0) /\
  ((2 <= length (mCachedBuffers s))%nat ->
   exists t_old t_new,
     head (mCachedBuffers s) ≫= timestamp = Some t_old /\
     last (mCachedBuffers s) ≫= timestamp = Some t_new /\
     mCacheDurationUs s = int64_sub t_new t_old).

(** Every queued buffer carries a timestamp. *)
Definition all_stamped (bufs : list MediaBuffer) : Prop :=
  Forall (fun b => is_Some (timestamp b)) bufs.

(** Queues of two or more buffers hold stamped buffers only. *)
Definition queue_stamped (bufs : list MediaBuffer) : Prop :=
  (2 <= length bufs)%nat -> Forall (fun b => is_Some (timestamp b)) bufs.

(** The calls a cache receives: its methods, and the wake-up of a reader
    asleep in [read]. *)
Inductive Call : Type :=
| CallStart (params : option MetaData)
| CallStop
| CallRead (options : option ReadOptions)
| Wakeup
| CallCacheMore
| CallOnPrefetcherStopped.

(** One completed call on a cache, by any thread, with the events it
    issued. *)
Inductive cache_step : Call -> PS -> list Event -> PS -> Prop :=
| step_start params err s s' tr :
    start params s = Done err s' tr -> cache_step (CallStart params) s tr s'
| step_stop err s s' tr :
    stop s = Done err s' tr -> cache_step CallStop s tr s'
| step_read options r s s' tr :
    read options s = Done r s' tr -> cache_step (CallRead options) s tr s'
| step_wake r s s' tr :
    read_loop s = Done r s' tr -> cache_step Wakeup s tr s'
| step_cacheMore s s' tr :
    cacheMore s = Done tt s' tr -> cache_step CallCacheMore s tr s'
| step_onPrefetcherStopped s s' tr :
    onPrefetcherStopped s = Done tt s' tr ->
    cache_step CallOnPrefetcherStopped s tr s'.

(** A sequence of completed calls. *)
Inductive cache_run : PS -> list Call -> list Event -> PS -> Prop :=
| run_nil s : cache_run s [] [] s
| run_cons c cs s s1 s2 tr tr' :
    cache_step c s tr s1 -> cache_run s1 cs tr' s2 ->
    cache_run s (c :: cs) (tr ++ tr') s2.

(** The call is a [read] that asks for a seek. *)
Definition requests_seek (c : Call) : Prop :=
  match c with
  | CallRead options => is_Some (options ≫= getSeekTo)
  | _ => False
  end.

(** The options the next [cacheMore] hands to the source, as the pending
    seek decides them. *)
Definition pending_options (s : PS) : ReadOptions :=
  if 0 <=? mSeekTimeUs s then setSeekTo (mSeekTimeUs s) no_options
  else no_options.

(** What ends the sleep of a reader: "the queue is non-empty,
    end-of-stream is recorded, or the scheduler has announced shutdown". *)
Definition can_proceed (s : PS) : Prop :=
  mCachedBuffers s <> [] \/ mReachedEOS s = true \/ mPrefetcherStopped s = true.

(** The [read] calls a trace makes on the wrapped source, by their options. *)
Fixpoint source_reads (tr : list Event) : list ReadOptions :=
  match tr with
  | [] => []
  | SourceRead o :: rest => o :: source_reads rest
  | _ :: rest => source_reads rest
  end.

(** The calls as computations, to run a sequence of them. *)
Definition perform (c : Call) : M PS unit :=
  match c with
  | CallStart params => start params;; mret tt
  | CallStop => stop;; mret tt
  | CallRead options => read options;; mret tt
  | Wakeup => read_loop;; mret tt
  | CallCacheMore => cacheMore
  | CallOnPrefetcherStopped => onPrefetcherStopped
  end.

Fixpoint perform_all (cs : list Call) : M PS unit :=
  match cs with
  | [] => mret tt
  | c :: cs' => perform c;; perform_all cs'
  end.

(** The cache after the calls [cs], or as it was when one of them aborts. *)
Definition after_calls (cs : list Call) (s : PS) : PS :=
  match perform_all cs s with
  | Done _ s' _ => s'
  | Aborted _ => s
  end.

(** The buffers a trace releases, in order. *)
Fixpoint released (tr : list Event) : list MediaBuffer :=
  match tr with
  | [] => []
  | BufferRelease b :: rest => b :: released rest
  | _ :: rest => released rest
  end.

(** [n] calls of [read] without options, one after the other, each up to
    its return or its first sleep, with what each came to. *)
Fixpoint read_n (n : nat) : M PS (list ReadResult) :=
  match n with
  | O => mret []
  | S k =>
      r ← read None;
      rs ← read_n k;
      mret (r :: rs)
  end.

(** A cache that is not started holds no buffer. *)
Definition idle_empty (s : PS) : Prop :=
  mStarted s = false -> mCachedBuffers s = [].

End Vocabulary.

(** ** A scripted source

    A source that plays back a fixed list of replies to [read]; it stands
    for the wrapped source in the worked examples. *)

Record Script : Type := mkScript {
  start_reply : status_t;
  stop_reply : status_t;
  replies : list (status_t * option MediaBuffer)
}.

#[export] Instance Script_MediaSource : MediaSource Script := {|
  source_start _ sc := (start_reply sc, sc);
  source_stop sc := (stop_reply sc, sc);
  source_read _ sc :=
    match replies sc with
    | [] => ((ERROR_END_OF_STREAM, None), sc)
    | r :: rest => (r, mkScript (start_reply sc) (stop_reply sc) rest)
    end;
  source_getFormat _ := ∅
|}.

(** A one-byte buffer stamped [t], and one without a timestamp. *)
Definition stamped (t : Z) : MediaBuffer :=
  {| data := [0]; range_offset := 0%nat; range_length := 1%nat;
     meta_data := {[ kKeyTime := t ]} |}.
Definition unstamped : MediaBuffer :=
  {| data := [0]; range_offset := 0%nat; range_length := 1%nat; meta_data := ∅ |}.

(** A script that starts and stops without error, and the reply that
    delivers a buffer stamped [t]. *)
Definition script (rs : list (status_t * option MediaBuffer)) : Script :=
  {| start_reply := OK; stop_reply := OK; replies := rs |}.
Definition frame (t : Z) : status_t * option MediaBuffer := (OK, Some (stamped t)).

(** A cache over a scripted source with the given flags and queue, no
    seek pending, the duration being that of the queue. *)
Definition cache_of (started eos : bool) (bufs : list MediaBuffer)
    (sc : Script) : PrefetchedSource Script :=
  {| mSource := sc; mIndex := 0%nat; mStarted := started; mReachedEOS := eos;
     mSeekTimeUs := -1; mCacheDurationUs := default 0 (queue_span bufs);
     mPrefetcherStopped := false; mCachedBuffers := bufs |}.

(** A registry of seven entries: five seconds buffered; a dropped cache;
    three seconds, twice; a cache that is not started; one at
    end-of-stream; one above the ceiling. *)
Definition example_registry : Prefetcher Script :=
  {| mSources :=
       [ Some (cache_of true false [stamped 0; stamped 5000000] (script []));
         None;
         Some (cache_of true false [stamped 0; stamped 3000000] (script []));
         Some (cache_of true false [stamped 1; stamped 3000001] (script []));
         Some (cache_of false false [] (script []));
         Some (cache_of true true [stamped 0; stamped 1000000] (script []));
         Some (cache_of true false [stamped 0; stamped 12000000] (script [])) ];
     mDone := false; mThreadExited := false |}.

(** A source that delivers a buffer stamped 5 and then one stamped 4, and
    the cache that has been started and has fetched both. *)
Definition backwards_source : Script := script [frame 5; frame 4].

Definition backwards_cache : PrefetchedSource Script :=
  after_calls [CallStart None; CallCacheMore; CallCacheMore]
    (new_PrefetchedSource 0 backwards_source).

Definition backwards_registry : Prefetcher Script :=
  {| mSources := [Some backwards_cache]; mDone := false;
     mThreadExited := false |}.


(** * Properties *)

(** ** Machine integers *)

Lemma int64_wrap_id z : is_int64 z -> int64_wrap z = z.
Proof.
  unfold is_int64, int64_min, int64_max, int64_wrap. intros Hz.
  rewrite Z.mod_small; lia.
Qed.

Lemma int64_wrap_range z : is_int64 (int64_wrap z).
Proof.
  unfold is_int64, int64_min, int64_max, int64_wrap.
  pose proof (Z.mod_pos_bound (z + 2 ^ 63) (2 ^ 64)). lia.
Qed.

Lemma int64_sub_exact a b : is_int64 (a - b) -> int64_sub a b = a - b.
Proof. apply int64_wrap_id. Qed.

(** ** The cache *)

Ltac unfold_monad :=
  cbv [mbind mret M_mbind M_mret M_bind M_ret gets modify emit CHECK
       CHECK_some after_events].

Section CacheFacts.
Context {Src : Type} `{MediaSource Src}.

Abbreviation PS := (PrefetchedSource Src).

Implicit Types s : PS.
Implicit Types wakeups pre post : list PS.

(** [updateCacheDuration_l] computes [queue_span], and aborts exactly where
    that is undefined. *)
Lemma updateCacheDuration_l_span s :
  updateCacheDuration_l s =
    match queue_span (mCachedBuffers s) with
    | Some d => Done tt (set_mCacheDurationUs d s) []
    | None => Aborted []
    end.
Proof.
  unfold updateCacheDuration_l, queue_span. unfold_monad.
  destruct (mCachedBuffers s) as [|b0 [|b1 rest]]; try reflexivity.
  cbn [length Nat.ltb Nat.leb head option_bind].
  destruct (timestamp b0) as [t0|]; [|reflexivity].
  destruct (option_bind _ _ timestamp (last (b0 :: b1 :: rest))) as [t1|];
    reflexivity.
Qed.

Lemma release_all_run bufs s :
  release_all bufs s =
    Done tt (match bufs with [] => s | _ => set_mCachedBuffers [] s end)
      (BufferRelease <$> bufs).
Proof.
  revert s. induction bufs as [|b rest IH]; intros s; [reflexivity|].
  cbn [release_all]. unfold_monad. fold (@release_all Src).
  rewrite IH. destruct rest; reflexivity.
Qed.

Lemma clearCache_l_run s :
  clearCache_l s =
    Done tt (set_mCacheDurationUs 0 (set_mCachedBuffers [] s))
      (BufferRelease <$> mCachedBuffers s).
Proof.
  unfold clearCache_l. unfold_monad.
  rewrite release_all_run, updateCacheDuration_l_span.
  destruct s as [src idx st eos sk dur stp bufs]; destruct bufs; cbn;
    rewrite ?app_nil_r; reflexivity.
Qed.

(** Closed forms of the methods. *)

Lemma read_loop_run s :
  read_loop s =
    match mCachedBuffers s with
    | [] =>
        if negb (mPrefetcherStopped s) && negb (mReachedEOS s)
        then Done ReadBlocked s [CondWait]
        else Done (ReadReturned ERROR_END_OF_STREAM None) s []
    | b :: rest =>
        match queue_span rest with
        | Some d =>
            Done (ReadReturned OK (Some b))
              (set_mCacheDurationUs d (set_mCachedBuffers rest s)) []
        | None => Aborted []
        end
    end.
Proof.
  unfold read_loop. unfold_monad.
  destruct (mCachedBuffers s) as [|b rest] eqn:Hq.
  - rewrite bool_decide_eq_true_2 by reflexivity. rewrite andb_true_r.
    destruct (negb (mPrefetcherStopped s) && negb (mReachedEOS s)); reflexivity.
  - rewrite bool_decide_eq_false_2 by discriminate. rewrite andb_false_r.
    rewrite updateCacheDuration_l_span. cbn [mCachedBuffers set_mCachedBuffers].
    destruct (queue_span rest); reflexivity.
Qed.

Lemma read_run options s :
  read options s =
    if mStarted s then
      match options ≫= getSeekTo with
      | Some seekTimeUs =>
          if 0 <=? seekTimeUs then
            after_events (BufferRelease <$> mCachedBuffers s)
              (read_loop
                 (set_mSeekTimeUs seekTimeUs
                    (set_mReachedEOS false
                       (set_mCacheDurationUs 0 (set_mCachedBuffers [] s)))))
          else Aborted []
      | None => read_loop s
      end
    else Aborted [].
Proof.
  unfold read. unfold_monad.
  destruct (mStarted s); [|reflexivity].
  destruct (option_bind _ _ getSeekTo options) as [t|].
  - destruct (0 <=? t); [|reflexivity].
    rewrite clearCache_l_run.
    destruct (read_loop _) as [r s' tr|tr]; cbn; rewrite ?app_nil_r; reflexivity.
  - destruct (read_loop s) as [r s' tr|tr]; reflexivity.
Qed.

Lemma start_run params s :
  start params s =
    if mStarted s then Aborted []
    else
      let '(err, src) := source_start params (mSource s) in
      if negb (err =? OK)
      then Done err (set_mSource src s) [SourceStart params]
      else Done OK (set_mStarted true (set_mSource src s)) [SourceStart params].
Proof.
  unfold start, call_source_start. unfold_monad.
  destruct (mStarted s); [reflexivity|]. cbn [negb].
  destruct (source_start params (mSource s)) as [err src].
  destruct (negb (err =? OK)); reflexivity.
Qed.

Lemma stop_run s :
  stop s =
    if mStarted s then
      let '(err, src) := source_stop (mSource s) in
      Done err
        (set_mStarted false
           (set_mSource src (set_mCacheDurationUs 0 (set_mCachedBuffers [] s))))
        ((BufferRelease <$> mCachedBuffers s) ++ [SourceStop])
    else Aborted [].
Proof.
  unfold stop, call_source_stop. unfold_monad.
  destruct (mStarted s); [|reflexivity].
  rewrite clearCache_l_run. cbn [mSource set_mCacheDurationUs set_mCachedBuffers].
  destruct (source_stop (mSource s)) as [err src]. cbn.
  rewrite ?app_nil_r. reflexivity.
Qed.

Lemma cacheMore_run s :
  cacheMore s =
    if negb (mStarted s) then Done tt s []
    else
      let options := pending_options s in
      let s1 := if 0 <=? mSeekTimeUs s then set_mSeekTimeUs (-1) s else s in
      let '((err, buffer), src) := source_read options (mSource s) in
      let s2 := set_mSource src s1 in
      if negb (err =? OK)
      then Done tt (set_mReachedEOS true s2) [SourceRead options; CondSignal]
      else
        match buffer with
        | None => Aborted [SourceRead options]
        | Some b =>
            let bufs := mCachedBuffers s ++ [copy_buffer b] in
            match queue_span bufs with
            | Some d =>
                Done tt (set_mCacheDurationUs d (set_mCachedBuffers bufs s2))
                  [SourceRead options; BufferRelease b; CondSignal]
            | None => Aborted [SourceRead options; BufferRelease b]
            end
        end.
Proof.
  unfold cacheMore, call_source_read, pending_options. unfold_monad.
  destruct (mStarted s); [|reflexivity]. cbn [negb].
  destruct (0 <=? mSeekTimeUs s);
    cbn [mSource set_mSeekTimeUs];
    destruct (source_read _ (mSource s)) as [[err buffer] src];
    (destruct (negb (err =? OK)); [reflexivity|]);
    (destruct buffer as [b|]; [|reflexivity]);
    rewrite updateCacheDuration_l_span;
    cbn [mCachedBuffers set_mCachedBuffers set_mSource set_mSeekTimeUs];
    destruct (queue_span _); reflexivity.
Qed.

Lemma onPrefetcherStopped_run s :
  onPrefetcherStopped s = Done tt (set_mPrefetcherStopped true s) [CondSignal].
Proof. reflexivity. Qed.

(** *** Spans and stamped queues *)

Lemma queue_span_consistent s :
  queue_span (mCachedBuffers s) = Some (mCacheDurationUs s) ->
  duration_consistent s.
Proof.
  unfold queue_span, duration_consistent.
  destruct (mCachedBuffers s) as [|b0 [|b1 rest]]; cbn [length].
  - intros [= <-]. split; [reflexivity|lia].
  - intros [= <-]. split; [reflexivity|lia].
  - destruct (timestamp b0) as [t0|] eqn:H0; [|discriminate].
    destruct (last (b0 :: b1 :: rest) ≫= timestamp) as [t1|] eqn:H1;
      [|discriminate].
    intros [= <-]. split; [lia|]. intros _. exists t0, t1.
    repeat split; auto.
Qed.

Lemma duration_consistent_fields s s' :
  mCachedBuffers s' = mCachedBuffers s ->
  mCacheDurationUs s' = mCacheDurationUs s ->
  duration_consistent s -> duration_consistent s'.
Proof. unfold duration_consistent. intros -> ->. auto. Qed.

Lemma all_stamped_queue_stamped bufs : all_stamped bufs -> queue_stamped bufs.
Proof. intros Hall _. exact Hall. Qed.

Lemma queue_stamped_tail b rest : queue_stamped (b :: rest) -> queue_stamped rest.
Proof.
  unfold queue_stamped. intros Hq Hlen.
  eapply Forall_inv_tail. apply Hq. cbn [length]. lia.
Qed.

Lemma queue_stamped_span bufs : queue_stamped bufs -> is_Some (queue_span bufs).
Proof.
  unfold queue_stamped, queue_span.
  destruct bufs as [|b0 [|b1 rest]]; [eauto..|].
  intros Hq. assert (Hall : Forall (fun b => is_Some (timestamp b)) (b0 :: b1 :: rest))
    by (apply Hq; cbn [length]; lia).
  pose proof (Forall_inv Hall) as [t0 H0]. rewrite H0.
  assert (is_Some (last (b0 :: b1 :: rest))) as [bl Hl]
    by (apply last_is_Some; discriminate).
  rewrite Forall_forall in Hall.
  destruct (Hall bl) as [t1 H1]; [by eapply last_Some_elem_of|].
  rewrite Hl. cbn [mbind option_bind]. rewrite H1. eauto.
Qed.

Lemma queue_span_ends b0 rest c :
  is_Some (queue_span (b0 :: rest ++ [c])) ->
  is_Some (timestamp b0) /\ is_Some (timestamp c).
Proof.
  intros [d Hd]. revert Hd.
  assert (Hlast : last (b0 :: rest ++ [c]) = Some c)
    by (change (b0 :: rest ++ [c]) with ((b0 :: rest) ++ [c]); apply last_snoc).
  unfold queue_span. rewrite Hlast.
  destruct rest as [|r1 rest']; cbn [app];
    (destruct (timestamp b0); [|discriminate]);
    cbn [mbind option_bind];
    (destruct (timestamp c); [|discriminate]); eauto.
Qed.

Lemma queue_span_snoc_stamped bufs c :
  queue_stamped bufs -> is_Some (queue_span (bufs ++ [c])) ->
  queue_stamped (bufs ++ [c]).
Proof.
  unfold queue_stamped. intros Hq Hd Hlen.
  destruct bufs as [|b0 rest]; [cbn [app length] in Hlen; lia|].
  destruct (queue_span_ends b0 rest c Hd) as [H0 Hc].
  apply Forall_app. split; [|by apply Forall_singleton].
  destruct rest as [|b1 rest']; [by apply Forall_singleton|].
  apply Hq. cbn [length]. lia.
Qed.

Lemma all_stamped_snoc_span bufs c :
  all_stamped bufs -> is_Some (timestamp c) ->
  is_Some (queue_span (bufs ++ [c])).
Proof.
  intros Hall Hc. apply queue_stamped_span, all_stamped_queue_stamped.
  apply Forall_app. split; [exact Hall|by apply Forall_singleton].
Qed.

Lemma timestamp_copy_buffer b : timestamp (copy_buffer b) = timestamp b.
Proof.
  unfold copy_buffer, timestamp, findInt64, setInt64.
  destruct (meta_data b !! kKeyTime) as [t|] eqn:Ht; cbn.
  - apply lookup_insert_eq.
  - apply lookup_empty.
Qed.

(** *** Duration accounting *)

Ltac run_step Hrun :=
  rewrite ?start_run, ?stop_run, ?read_run, ?cacheMore_run,
    ?onPrefetcherStopped_run in Hrun;
  repeat first
    [ discriminate
    | progress rewrite read_loop_run in *
    | progress unfold after_events in *
    | progress
        cbn [mCachedBuffers mStarted mReachedEOS mPrefetcherStopped mSeekTimeUs
             mCacheDurationUs mSource
             set_mCachedBuffers set_mCacheDurationUs set_mSeekTimeUs
             set_mReachedEOS set_mStarted set_mSource set_mPrefetcherStopped]
          in *
    | case_match ];
  simplify_eq.

Ltac duration_done Hpre :=
  first
    [ apply queue_span_consistent; cbn; assumption
    | apply queue_span_consistent; reflexivity
    | destruct Hpre as [Hpre|Hpre];
      [ exfalso; apply Hpre; first [reflexivity|congruence]
      | first
          [ exact Hpre
          | eapply duration_consistent_fields; [| |exact Hpre]; reflexivity ] ] ].

(** C2: after every operation that modifies the buffer queue (a fetch that
    appends, a read that pops, a seek or a stop that drains), the stored
    duration is [timestamp(newest) - timestamp(oldest)] on [int64_t] when at
    least two buffers are queued and 0 when fewer are, whatever it was
    before; a call that leaves the queue alone keeps the invariant it found;
    hence every cache reached from its construction by completed calls
    satisfies it. *)
Theorem duration_tracks_queue :
  (forall c s tr s',
     cache_step c s tr s' ->
     mCachedBuffers s' <> mCachedBuffers s \/ duration_consistent s ->
     duration_consistent s') /\
  (forall index (source : Src) cs tr s,
     cache_run (new_PrefetchedSource index source) cs tr s ->
     duration_consistent s).
Proof.
  assert (Hstep : forall c s tr s',
            cache_step c s tr s' ->
            mCachedBuffers s' <> mCachedBuffers s \/ duration_consistent s ->
            duration_consistent s').
  { intros c s tr s' Hstep Hpre.
    destruct Hstep as [params err s s' tr Hrun|err s s' tr Hrun
                      |options r s s' tr Hrun|r s s' tr Hrun
                      |s s' tr Hrun|s s' tr Hrun];
      run_step Hrun; duration_done Hpre. }
  split; [exact Hstep|].
  assert (Hrun : forall s0 cs tr s,
            cache_run s0 cs tr s -> duration_consistent s0 ->
            duration_consistent s).
  { induction 1 as [s0|c cs s0 s1 s2 tr tr' Hc Hcs IH]; [auto|].
    intros Hd. apply IH. eapply Hstep; eauto. }
  intros index source cs tr s Hcs. apply (Hrun _ _ _ _ Hcs).
  apply queue_span_consistent. reflexivity.
Qed.

(** *** The timestamp assertion *)

Lemma queue_span_None bufs :
  queue_span bufs = None <->
  (2 <= length bufs)%nat /\
  (head bufs ≫= timestamp = None \/ last bufs ≫= timestamp = None).
Proof.
  unfold queue_span. destruct bufs as [|b0 [|b1 rest]].
  - cbn [length]. split; [discriminate|lia].
  - cbn [length]. split; [discriminate|lia].
  - cbn [head length]. change (Some b0 ≫= timestamp) with (timestamp b0).
    destruct (timestamp b0) as [t0|].
    + destruct (last (b0 :: b1 :: rest) ≫= timestamp) as [t1|].
      * split; [discriminate|]. intros [_ [?|?]]; discriminate.
      * split; [|reflexivity]. intros _. split; [lia|auto].
    + split; [|reflexivity]. intros _. split; [lia|auto].
Qed.

Lemma read_loop_stamped s :
  all_stamped (mCachedBuffers s) ->
  exists r s' tr, read_loop s = Done r s' tr /\ all_stamped (mCachedBuffers s').
Proof.
  intros Hall. rewrite read_loop_run.
  destruct (mCachedBuffers s) as [|b rest] eqn:Hq.
  - destruct (negb _ && negb _); eexists _, s, _;
      (split; [reflexivity|rewrite Hq; apply Forall_nil_2]).
  - apply Forall_inv_tail in Hall.
    destruct (queue_stamped_span rest (all_stamped_queue_stamped _ Hall))
      as [d ->].
    eexists _, _, _. split; [reflexivity|exact Hall].
Qed.

(** C10: recomputing the duration of a queue of two or more buffers
    asserts that its oldest and its newest buffer carry a timestamp.
    [cacheMore] copies the timestamp of the source's buffer only when there
    is one and queues the copy all the same, so a fetch that finds the queue
    non-empty aborts when the buffer it got (or the one queued alone before
    it) has no timestamp; when every buffer that came from the source is
    stamped, fetch, read and stop all run to completion and keep the queue
    stamped. *)
Theorem timestamp_assertion_needs_stamped_source s b src :
  mStarted s = true ->
  source_read (pending_options s) (mSource s) = ((OK, Some b), src) ->
  (forall s0 : PS,
     (exists tr, updateCacheDuration_l s0 = Aborted tr) <->
     (2 <= length (mCachedBuffers s0))%nat /\
     (head (mCachedBuffers s0) ≫= timestamp = None \/
      last (mCachedBuffers s0) ≫= timestamp = None)) /\
  timestamp (copy_buffer b) = timestamp b /\
  (mCachedBuffers s = [] ->
   exists s' tr, cacheMore s = Done tt s' tr /\
                 mCachedBuffers s' = [copy_buffer b]) /\
  (mCachedBuffers s <> [] ->
   timestamp b = None \/ head (mCachedBuffers s) ≫= timestamp = None ->
   exists tr, cacheMore s = Aborted tr) /\
  (all_stamped (mCachedBuffers s) -> is_Some (timestamp b) ->
   exists s' tr, cacheMore s = Done tt s' tr /\
                 mCachedBuffers s' = mCachedBuffers s ++ [copy_buffer b] /\
                 all_stamped (mCachedBuffers s')) /\
  (all_stamped (mCachedBuffers s) ->
   (forall options,
      (forall T, options ≫= getSeekTo = Some T -> 0 <= T) ->
      exists r s' tr, read options s = Done r s' tr /\
                      all_stamped (mCachedBuffers s')) /\
   (exists err s' tr, stop s = Done err s' tr /\
                      all_stamped (mCachedBuffers s'))).
Proof.
  intros Hstarted Hread.
  assert (Hfetch : cacheMore s =
    match queue_span (mCachedBuffers s ++ [copy_buffer b]) with
    | Some d =>
        Done tt
          (set_mCacheDurationUs d
             (set_mCachedBuffers (mCachedBuffers s ++ [copy_buffer b])
                (set_mSource src
                   (if 0 <=? mSeekTimeUs s then set_mSeekTimeUs (-1) s else s))))
          [SourceRead (pending_options s); BufferRelease b; CondSignal]
    | None => Aborted [SourceRead (pending_options s); BufferRelease b]
    end).
  { rewrite cacheMore_run, Hstarted. cbn [negb]. cbv zeta. rewrite Hread.
    reflexivity. }
  split; [|split; [|split; [|split; [|split]]]].
  - intros s0. rewrite updateCacheDuration_l_span, <- queue_span_None.
    destruct (queue_span (mCachedBuffers s0)); split.
    + intros [tr [=]].
    + discriminate.
    + reflexivity.
    + eauto.
  - apply timestamp_copy_buffer.
  - intros Hempty. rewrite Hfetch, Hempty. cbn [app queue_span].
    eexists _, _. split; reflexivity.
  - intros Hne Hmissing. rewrite Hfetch.
    assert (Hnone : queue_span (mCachedBuffers s ++ [copy_buffer b]) = None).
    { apply queue_span_None. destruct (mCachedBuffers s) as [|b0 rest];
        [congruence|]. split; [rewrite length_app; cbn [length]; lia|].
      destruct Hmissing as [Hb|H0].
      - right. rewrite last_snoc. cbn [mbind option_bind].
        rewrite timestamp_copy_buffer. exact Hb.
      - left. exact H0. }
    rewrite Hnone. eauto.
  - intros Hall Hb. rewrite Hfetch.
    assert (Hall' : all_stamped (mCachedBuffers s ++ [copy_buffer b])).
    { apply Forall_app. split; [exact Hall|]. apply Forall_singleton.
      rewrite timestamp_copy_buffer. exact Hb. }
    destruct (queue_stamped_span _ (all_stamped_queue_stamped _ Hall'))
      as [d ->].
    eexists _, _. split; [reflexivity|]. split; [reflexivity|exact Hall'].
  - intros Hall. split.
    + intros options Hseek. rewrite read_run, Hstarted.
      destruct (options ≫= getSeekTo) as [T|] eqn:Hopt.
      * assert (HT : (0 <=? T) = true) by (apply Z.leb_le; auto).
        rewrite HT.
        edestruct (read_loop_stamped
                     (set_mSeekTimeUs T
                        (set_mReachedEOS false
                           (set_mCacheDurationUs 0 (set_mCachedBuffers [] s)))))
          as (r & s' & tr & -> & Hs'); [apply Forall_nil_2|].
        cbn [after_events]. eauto.
      * destruct (read_loop_stamped s Hall) as (r & s' & tr & -> & Hs'). eauto.
    + rewrite stop_run, Hstarted.
      destruct (source_stop (mSource s)) as [err src'].
      eexists _, _, _. split; [reflexivity|]. apply Forall_nil_2.
Qed.

(** *** Seeks *)

Lemma source_reads_app tr1 tr2 :
  source_reads (tr1 ++ tr2) = source_reads tr1 ++ source_reads tr2.
Proof.
  induction tr1 as [|e tr1 IH]; [reflexivity|].
  destruct e; cbn [app source_reads]; rewrite IH; reflexivity.
Qed.

Lemma source_reads_releases bufs : source_reads (BufferRelease <$> bufs) = [].
Proof. induction bufs as [|b bufs IH]; [reflexivity|exact IH]. Qed.

(** The source reads of a fetch: one, with the pending options, unless the
    cache is not started. *)
Lemma cacheMore_source_reads s :
  source_reads (events_of (cacheMore s)) =
    if mStarted s then [pending_options s] else [].
Proof.
  rewrite cacheMore_run. destruct (mStarted s); [|reflexivity].
  cbn [negb]. cbv zeta.
  destruct (source_read _ _) as [[err buffer] src].
  destruct (negb (err =? OK)); [reflexivity|].
  destruct buffer as [b|]; [|reflexivity].
  destruct (queue_span _); reflexivity.
Qed.

(** Only a [read] that asks for a seek sets a pending seek. *)
Lemma quiet_step c s tr s' :
  cache_step c s tr s' -> ~ requests_seek c -> mSeekTimeUs s < 0 ->
  mSeekTimeUs s' < 0 /\ Forall (eq no_options) (source_reads tr).
Proof.
  intros Hstep Hquiet Hneg.
  assert (Hopt : pending_options s = no_options).
  { unfold pending_options. destruct (0 <=? mSeekTimeUs s) eqn:Hle;
      [apply Z.leb_le in Hle; lia|reflexivity]. }
  destruct Hstep as [params err s s' tr Hrun|err s s' tr Hrun
                    |options r s s' tr Hrun|r s s' tr Hrun
                    |s s' tr Hrun|s s' tr Hrun].
  - run_step Hrun; split; cbn; auto.
  - run_step Hrun. split; [exact Hneg|].
    rewrite source_reads_app, source_reads_releases. constructor.
  - cbn [requests_seek] in Hquiet.
    destruct (options ≫= getSeekTo) as [T|] eqn:Hseek;
      [exfalso; apply Hquiet; eauto|].
    rewrite read_run, Hseek in Hrun. run_step Hrun; split; cbn; auto.
  - run_step Hrun; split; cbn; auto.
  - pose proof (cacheMore_source_reads s) as Hreads.
    rewrite Hrun, Hopt in Hreads. cbn [events_of] in Hreads. rewrite Hreads.
    split; [|destruct (mStarted s); auto].
    rewrite cacheMore_run in Hrun. unfold pending_options in Hrun.
    destruct (0 <=? mSeekTimeUs s) eqn:Hle; [apply Z.leb_le in Hle; lia|].
    run_step Hrun; cbn; auto.
  - run_step Hrun. split; cbn; auto.
Qed.

Lemma quiet_run s cs tr s' :
  cache_run s cs tr s' -> Forall (fun c => ~ requests_seek c) cs ->
  mSeekTimeUs s < 0 ->
  mSeekTimeUs s' < 0 /\ Forall (eq no_options) (source_reads tr).
Proof.
  induction 1 as [s|c cs s s1 s2 tr tr' Hstep Hrun IH]; intros Hquiet Hneg.
  - split; [exact Hneg|constructor].
  - apply Forall_cons in Hquiet as [Hc Hcs].
    destruct (quiet_step _ _ _ _ Hstep Hc Hneg) as [Hneg1 Hreads1].
    destruct (IH Hcs Hneg1) as [Hneg2 Hreads2].
    split; [exact Hneg2|]. rewrite source_reads_app. by apply Forall_app.
Qed.

(** After a fetch on a started cache no seek is pending. *)
Lemma cacheMore_consumes_seek s s' tr :
  mStarted s = true -> cacheMore s = Done tt s' tr -> mSeekTimeUs s' < 0.
Proof.
  intros Hstarted Hrun. rewrite cacheMore_run, Hstarted in Hrun.
  unfold pending_options in Hrun. cbn [negb] in Hrun.
  destruct (0 <=? mSeekTimeUs s) eqn:Hle; run_step Hrun; cbn;
    first [lia|apply Z.leb_gt in Hle; lia].
Qed.

(** C3: on a started cache with N queued buffers, a read that carries a
    seek to T >= 0 releases the N buffers in queue order, leaves the queue
    empty with duration 0, clears end-of-stream and records T as the pending
    seek; the next fetch makes one read on the source, with seek option T,
    and leaves nothing pending; the fetches of any later run without a new
    seek request read the source with no seek option. *)
Theorem seek_drains_then_applies_once options T s :
  mStarted s = true ->
  options ≫= getSeekTo = Some T ->
  0 <= T ->
  exists s1,
    read options s =
      Done (if mPrefetcherStopped s
            then ReadReturned ERROR_END_OF_STREAM None else ReadBlocked)
        s1
        ((BufferRelease <$> mCachedBuffers s) ++
         (if mPrefetcherStopped s then [] else [CondWait])) /\
    length (BufferRelease <$> mCachedBuffers s) = length (mCachedBuffers s) /\
    mCachedBuffers s1 = [] /\
    mCacheDurationUs s1 = 0 /\
    mReachedEOS s1 = false /\
    mSeekTimeUs s1 = T /\
    source_reads (events_of (cacheMore s1)) = [setSeekTo T no_options] /\
    forall s2 tr2,
      cacheMore s1 = Done tt s2 tr2 ->
      mSeekTimeUs s2 = -1 /\
      forall cs tr3 s3,
        cache_run s2 cs tr3 s3 ->
        Forall (fun c => ~ requests_seek c) cs ->
        Forall (eq no_options) (source_reads tr3).
Proof.
  intros Hstarted Hseek HT.
  assert (HTb : (0 <=? T) = true) by (apply Z.leb_le; exact HT).
  set (s1 := set_mSeekTimeUs T
               (set_mReachedEOS false
                  (set_mCacheDurationUs 0 (set_mCachedBuffers [] s)))).
  assert (Hopt : pending_options s1 = setSeekTo T no_options).
  { unfold pending_options, s1. cbn [mSeekTimeUs set_mSeekTimeUs].
    rewrite HTb. reflexivity. }
  exists s1. split; [|split; [|split; [|split; [|split; [|split; [|split]]]]]];
    try reflexivity.
  - rewrite read_run, Hstarted, Hseek, HTb. fold s1. rewrite read_loop_run.
    unfold s1 at 1 2 3. cbn [mCachedBuffers mPrefetcherStopped mReachedEOS
      set_mSeekTimeUs set_mReachedEOS set_mCacheDurationUs set_mCachedBuffers].
    destruct (mPrefetcherStopped s); reflexivity.
  - apply length_fmap.
  - rewrite cacheMore_source_reads, Hopt. unfold s1.
    cbn [mStarted set_mSeekTimeUs set_mReachedEOS set_mCacheDurationUs
         set_mCachedBuffers]. rewrite Hstarted. reflexivity.
  - intros s2 tr2 Hfetch.
    assert (Hstarted1 : mStarted s1 = true) by exact Hstarted.
    pose proof (cacheMore_consumes_seek _ _ _ Hstarted1 Hfetch) as Hneg.
    split.
    + rewrite cacheMore_run, Hstarted1 in Hfetch. unfold pending_options in Hfetch.
      replace (mSeekTimeUs s1) with T in Hfetch by reflexivity.
      rewrite HTb in Hfetch. cbn [negb] in Hfetch.
      run_step Hfetch; reflexivity.
    + intros cs tr3 s3 Hrun Hquiet.
      exact (proj2 (quiet_run _ _ _ _ Hrun Hquiet Hneg)).
Qed.

(** *** Blocking reads *)

Lemma after_events_app {St A} tr1 tr2 (o : Outcome St A) :
  after_events tr1 (after_events tr2 o) = after_events (tr1 ++ tr2) o.
Proof. destruct o; cbn; rewrite app_assoc; reflexivity. Qed.

Lemma must_wait_cannot_proceed s :
  negb (mPrefetcherStopped s) && negb (mReachedEOS s) = true /\
  mCachedBuffers s = [] <-> ~ can_proceed s.
Proof.
  unfold can_proceed.
  destruct (mPrefetcherStopped s), (mReachedEOS s), (mCachedBuffers s); cbn;
    intuition congruence.
Qed.

Lemma read_loop_waits s :
  ~ can_proceed s -> read_loop s = Done ReadBlocked s [CondWait].
Proof.
  intros Hwait. apply must_wait_cannot_proceed in Hwait as [Hflags Hq].
  rewrite read_loop_run, Hq, Hflags. reflexivity.
Qed.

Lemma read_loop_proceeds s :
  can_proceed s -> queue_stamped (mCachedBuffers s) ->
  match mCachedBuffers s with
  | [] => read_loop s = Done (ReadReturned ERROR_END_OF_STREAM None) s []
  | b :: rest =>
      exists d, queue_span rest = Some d /\
        read_loop s =
          Done (ReadReturned OK (Some b))
            (set_mCacheDurationUs d (set_mCachedBuffers rest s)) []
  end.
Proof.
  intros Hgo Hq. rewrite read_loop_run.
  destruct (mCachedBuffers s) as [|b rest] eqn:Hbufs.
  - destruct (negb (mPrefetcherStopped s) && negb (mReachedEOS s)) eqn:Hflags;
      [|reflexivity].
    exfalso. revert Hgo. apply must_wait_cannot_proceed. auto.
  - destruct (queue_stamped_span rest (queue_stamped_tail _ _ Hq)) as [d Hd].
    exists d. rewrite Hd. auto.
Qed.

Lemma read_woken_after_events wakeups tr o :
  read_woken wakeups (after_events tr o) = after_events tr (read_woken wakeups o).
Proof.
  destruct wakeups as [|s1 later]; [reflexivity|].
  destruct o as [[err out|] s' tr'|tr']; cbn [read_woken after_events];
    [reflexivity| |reflexivity].
  rewrite after_events_app. reflexivity.
Qed.

Lemma read_woken_ready wakeups s :
  can_proceed s -> read_woken wakeups (read_loop s) = read_loop s.
Proof.
  intros Hgo. destruct wakeups as [|s1 later]; [reflexivity|].
  rewrite read_loop_run.
  destruct (mCachedBuffers s) as [|b rest] eqn:Hbufs.
  - destruct (negb (mPrefetcherStopped s) && negb (mReachedEOS s)) eqn:Hflags;
      [|reflexivity].
    exfalso. revert Hgo. apply must_wait_cannot_proceed. auto.
  - destruct (queue_span rest); reflexivity.
Qed.

Lemma read_woken_asleep wakeups s tr :
  Forall (fun s1 => ~ can_proceed s1) wakeups ->
  read_woken wakeups (Done ReadBlocked s tr) =
    Done ReadBlocked (default s (last wakeups))
      (tr ++ replicate (length wakeups) CondWait).
Proof.
  revert s tr. induction wakeups as [|s1 later IH]; intros s tr Hall.
  - cbn. rewrite app_nil_r. reflexivity.
  - apply Forall_cons in Hall as [H1 Hlater].
    cbn [read_woken]. rewrite (read_loop_waits s1 H1), (IH _ _ Hlater).
    cbn [after_events length replicate]. rewrite last_cons.
    destruct (last later); reflexivity.
Qed.

Lemma read_woken_first_ready pre s1 post s tr :
  Forall (fun s0 => ~ can_proceed s0) pre -> can_proceed s1 ->
  read_woken (pre ++ s1 :: post) (Done ReadBlocked s tr) =
    after_events (tr ++ replicate (length pre) CondWait) (read_loop s1).
Proof.
  revert s tr. induction pre as [|s0 pre IH]; intros s tr Hall Hgo.
  - cbn [app read_woken length replicate]. rewrite app_nil_r.
    rewrite (read_woken_ready post s1 Hgo). reflexivity.
  - apply Forall_cons in Hall as [H0 Hpre].
    cbn [app read_woken]. rewrite (read_loop_waits s0 H0), (IH _ _ Hpre Hgo).
    rewrite after_events_app. reflexivity.
Qed.

(** C4: a [read] on a started cache sleeps as long as the queue is empty,
    end-of-stream is not recorded and the scheduler has not stopped; at the
    first state in which one of the three holds it returns: the
    end-of-stream status and no buffer when the queue is empty, and
    otherwise [OK] with the oldest queued buffer, which it takes off the
    queue without releasing it, the duration being recomputed.  [s0] is
    the cache when the call reaches its wait loop (the cache itself unless
    the call carries a seek) and [wakeups] the states the reader finds when
    woken. *)
Theorem read_blocks_until_ready options s :
  mStarted s = true ->
  (forall T, options ≫= getSeekTo = Some T -> 0 <= T) ->
  exists s0 tr0,
    (options ≫= getSeekTo = None -> s0 = s /\ tr0 = []) /\
    read options s = after_events tr0 (read_loop s0) /\
    (forall wakeups,
       Forall (fun s1 => ~ can_proceed s1) (s0 :: wakeups) ->
       read_woken wakeups (read options s) =
         Done ReadBlocked (default s0 (last wakeups))
           (tr0 ++ replicate (S (length wakeups)) CondWait)) /\
    (forall pre s1 post wakeups,
       s0 :: wakeups = pre ++ s1 :: post ->
       Forall (fun s2 => ~ can_proceed s2) pre ->
       can_proceed s1 ->
       queue_stamped (mCachedBuffers s1) ->
       match mCachedBuffers s1 with
       | [] =>
           read_woken wakeups (read options s) =
             Done (ReadReturned ERROR_END_OF_STREAM None) s1
               (tr0 ++ replicate (length pre) CondWait)
       | b :: rest =>
           exists s',
             read_woken wakeups (read options s) =
               Done (ReadReturned OK (Some b)) s'
                 (tr0 ++ replicate (length pre) CondWait) /\
             mCachedBuffers s' = rest /\
             duration_consistent s'
       end).
Proof.
  intros Hstarted Hseek.
  assert (exists s0 tr0,
            (options ≫= getSeekTo = None -> s0 = s /\ tr0 = []) /\
            read options s = after_events tr0 (read_loop s0))
    as (s0 & tr0 & Hplain & Hread).
  { rewrite read_run, Hstarted.
    destruct (options ≫= getSeekTo) as [T|] eqn:Hopt.
    - assert (HT : (0 <=? T) = true) by (apply Z.leb_le; auto).
      rewrite HT. eexists _, _. split; [discriminate|reflexivity].
    - exists s, []. split; [auto|].
      destruct (read_loop s); reflexivity. }
  exists s0, tr0. split; [exact Hplain|]. split; [exact Hread|].
  rewrite Hread. split.
  - intros wakeups Hall. apply Forall_cons in Hall as [H0 Hall].
    rewrite (read_loop_waits s0 H0). cbn [after_events].
    rewrite (read_woken_asleep _ _ _ Hall). cbn [replicate].
    rewrite <- app_assoc. reflexivity.
  - intros pre s1 post wakeups Hsplit Hpre Hgo Hq.
    assert (Hrun : read_woken wakeups (after_events tr0 (read_loop s0)) =
                   after_events (tr0 ++ replicate (length pre) CondWait)
                     (read_loop s1)).
    { destruct pre as [|s0' pre'].
      - cbn [app] in Hsplit. injection Hsplit as -> ->.
        rewrite read_woken_after_events, (read_woken_ready _ _ Hgo).
        cbn [length replicate]. rewrite app_nil_r. reflexivity.
      - cbn [app] in Hsplit. injection Hsplit as <- ->.
        apply Forall_cons in Hpre as [H0 Hpre'].
        rewrite (read_loop_waits s0 H0). cbn [after_events].
        rewrite (read_woken_first_ready _ _ _ _ _ Hpre' Hgo).
        cbn [length replicate]. rewrite <- app_assoc. reflexivity. }
    rewrite Hrun. pose proof (read_loop_proceeds s1 Hgo Hq) as Hloop.
    destruct (mCachedBuffers s1) as [|b rest].
    + rewrite Hloop. cbn [after_events]. rewrite app_nil_r. reflexivity.
    + destruct Hloop as (d & Hd & ->). cbn [after_events]. rewrite app_nil_r.
      eexists. split; [reflexivity|]. split; [reflexivity|].
      apply queue_span_consistent. exact Hd.
Qed.

(** *** Start *)

(** C7: [start] on a cache that is not started forwards [params] to the
    source's [start]; when the source reports an error, that error is
    returned as it is and the cache stays not started, all its fields but
    the source's own state unchanged; when the source reports [OK], the
    cache becomes started.  [start] on a started cache fails its [CHECK]
    before anything is forwarded. *)
Theorem start_forwards_and_reports params s err src :
  source_start params (mSource s) = (err, src) ->
  (mStarted s = true -> start params s = Aborted []) /\
  (mStarted s = false ->
   (err <> OK ->
    start params s = Done err (set_mSource src s) [SourceStart params] /\
    mStarted (set_mSource src s) = false) /\
   (err = OK ->
    start params s =
      Done OK (set_mStarted true (set_mSource src s)) [SourceStart params])).
Proof.
  intros Hsrc. rewrite start_run, Hsrc. split.
  - intros ->. reflexivity.
  - intros Hnot. rewrite Hnot. split.
    + intros Herr. apply Z.eqb_neq in Herr. rewrite Herr. cbn [negb].
      split; [reflexivity|exact Hnot].
    + intros ->. reflexivity.
Qed.

(** *** The initial pending seek *)

Lemma pending_seek_kept c s tr s' :
  cache_step c s tr s' -> ~ requests_seek c -> c <> CallCacheMore ->
  mSeekTimeUs s' = mSeekTimeUs s /\ source_reads tr = [].
Proof.
  intros Hstep Hquiet Hfetch.
  destruct Hstep as [params err s s' tr Hrun|err s s' tr Hrun
                    |options r s s' tr Hrun|r s s' tr Hrun
                    |s s' tr Hrun|s s' tr Hrun]; [| | | |congruence|].
  - run_step Hrun; split; reflexivity.
  - run_step Hrun. split; [reflexivity|].
    rewrite source_reads_app, source_reads_releases. reflexivity.
  - cbn [requests_seek] in Hquiet.
    destruct (options ≫= getSeekTo) as [T|] eqn:Hseek;
      [exfalso; apply Hquiet; eauto|].
    rewrite read_run, Hseek in Hrun. run_step Hrun; split; reflexivity.
  - run_step Hrun; split; reflexivity.
  - run_step Hrun. split; reflexivity.
Qed.

Lemma pending_seek_kept_run s cs tr s' :
  cache_run s cs tr s' ->
  Forall (fun c => ~ requests_seek c /\ c <> CallCacheMore) cs ->
  mSeekTimeUs s' = mSeekTimeUs s /\ source_reads tr = [].
Proof.
  induction 1 as [s|c cs s s1 s2 tr tr' Hstep Hrun IH]; intros Hquiet.
  - split; reflexivity.
  - apply Forall_cons in Hquiet as [[Hc Hf] Hcs].
    destruct (pending_seek_kept _ _ _ _ Hstep Hc Hf) as [Heq1 Hreads1].
    destruct (IH Hcs) as [Heq2 Hreads2].
    split; [congruence|]. rewrite source_reads_app, Hreads1, Hreads2.
    reflexivity.
Qed.

Lemma cacheMore_clears_seek s s' tr :
  mStarted s = true -> 0 <= mSeekTimeUs s -> cacheMore s = Done tt s' tr ->
  mSeekTimeUs s' = -1.
Proof.
  intros Hstarted Hseek Hrun. apply Z.leb_le in Hseek.
  rewrite cacheMore_run, Hstarted in Hrun. unfold pending_options in Hrun.
  rewrite Hseek in Hrun. cbn [negb] in Hrun. run_step Hrun; reflexivity.
Qed.

(** C9: the constructor sets the pending seek to 0, not to -1.  On a cache
    that has been started and has seen neither a fetch nor a seek request
    since it was built, the first fetch reads the source with a seek to 0
    and leaves nothing pending; the fetches of any later run without a
    seek request read the source with no seek option. *)
Theorem first_fetch_seeks_to_zero index (source : Src) cs tr1 s1 :
  cache_run (new_PrefetchedSource index source) cs tr1 s1 ->
  Forall (fun c => ~ requests_seek c /\ c <> CallCacheMore) cs ->
  mStarted s1 = true ->
  mSeekTimeUs (new_PrefetchedSource index source) = 0 /\
  source_reads tr1 = [] /\
  source_reads (events_of (cacheMore s1)) = [setSeekTo 0 no_options] /\
  forall s2 tr2,
    cacheMore s1 = Done tt s2 tr2 ->
    mSeekTimeUs s2 = -1 /\
    forall cs' tr3 s3,
      cache_run s2 cs' tr3 s3 ->
      Forall (fun c => ~ requests_seek c) cs' ->
      Forall (eq no_options) (source_reads tr3).
Proof.
  intros Hrun Hquiet Hstarted.
  destruct (pending_seek_kept_run _ _ _ _ Hrun Hquiet) as [Hseek Hreads].
  cbn [mSeekTimeUs new_PrefetchedSource] in Hseek.
  split; [reflexivity|]. split; [exact Hreads|]. split.
  - rewrite cacheMore_source_reads, Hstarted. unfold pending_options.
    rewrite Hseek. reflexivity.
  - intros s2 tr2 Hfetch.
    assert (Hclear : mSeekTimeUs s2 = -1)
      by (eapply cacheMore_clears_seek; [exact Hstarted| |exact Hfetch]; lia).
    split; [exact Hclear|]. intros cs' tr3 s3 Hrun' Hquiet'.
    refine (proj2 (quiet_run _ _ _ _ Hrun' Hquiet' _)). lia.
Qed.

(** *** Stamped queues along runs *)

Lemma queue_stamped_step c s tr s' :
  cache_step c s tr s' -> queue_stamped (mCachedBuffers s) ->
  queue_stamped (mCachedBuffers s').
Proof.
  intros Hstep Hq.
  destruct Hstep as [params err s s' tr Hrun|err s s' tr Hrun
                    |options r s s' tr Hrun|r s s' tr Hrun
                    |s s' tr Hrun|s s' tr Hrun];
    run_step Hrun; cbn;
    try assumption;
    try (intros Hlen; cbn in Hlen; lia);
    try (eapply queue_stamped_tail; eassumption);
    try (apply queue_span_snoc_stamped; [assumption|eauto]).
  all: match goal with
       | E : mCachedBuffers ?x = _ |- queue_stamped (mCachedBuffers ?x) =>
           rewrite E; assumption
       end.
Qed.

Lemma stopped_step c s tr s' :
  cache_step c s tr s' -> mPrefetcherStopped s = true ->
  mPrefetcherStopped s' = true.
Proof.
  intros Hstep Hstopped.
  destruct Hstep as [params err s s' tr Hrun|err s s' tr Hrun
                    |options r s s' tr Hrun|r s s' tr Hrun
                    |s s' tr Hrun|s s' tr Hrun];
    run_step Hrun; cbn; first [assumption|reflexivity].
Qed.

Lemma stopped_run s cs tr s' :
  cache_run s cs tr s' ->
  mPrefetcherStopped s = true -> queue_stamped (mCachedBuffers s) ->
  mPrefetcherStopped s' = true /\ queue_stamped (mCachedBuffers s').
Proof.
  induction 1 as [s|c cs s s1 s2 tr tr' Hstep Hrun IH]; intros Hstopped Hq.
  - auto.
  - apply IH.
    + eapply stopped_step; eassumption.
    + eapply queue_stamped_step; eassumption.
Qed.

(** Every cache reached from its construction by completed calls has a
    stamped queue. *)
Lemma reachable_queue_stamped index (source : Src) cs tr s :
  cache_run (new_PrefetchedSource index source) cs tr s ->
  queue_stamped (mCachedBuffers s).
Proof.
  assert (Hgen : forall s0 cs0 tr0 s1,
            cache_run s0 cs0 tr0 s1 ->
            queue_stamped (mCachedBuffers s0) ->
            queue_stamped (mCachedBuffers s1)).
  { clear. induction 1 as [s0|c cs s0 s1 s2 tr tr' Hstep Hrun IH]; [auto|].
    intros Hq. apply IH. eapply queue_stamped_step; eassumption. }
  intros Hrun. apply (Hgen _ _ _ _ Hrun).
  intros Hlen. cbn in Hlen. lia.
Qed.

(** *** Running calls *)

Lemma perform_sound c s tr s' :
  perform c s = Done tt s' tr -> cache_step c s tr s'.
Proof.
  destruct c as [params| |options| | |]; cbn [perform]; unfold_monad.
  - destruct (start params s) as [err s1 t1|t1] eqn:Hrun; [|discriminate].
    intros [= <- <-]. rewrite app_nil_r. econstructor. exact Hrun.
  - destruct (stop s) as [err s1 t1|t1] eqn:Hrun; [|discriminate].
    intros [= <- <-]. rewrite app_nil_r. econstructor. exact Hrun.
  - destruct (read options s) as [r s1 t1|t1] eqn:Hrun; [|discriminate].
    intros [= <- <-]. rewrite app_nil_r. econstructor. exact Hrun.
  - destruct (read_loop s) as [r s1 t1|t1] eqn:Hrun; [|discriminate].
    intros [= <- <-]. rewrite app_nil_r. econstructor. exact Hrun.
  - intros Hrun. constructor. exact Hrun.
  - intros Hrun. constructor. exact Hrun.
Qed.

Lemma perform_all_sound cs : forall s tr s',
  perform_all cs s = Done tt s' tr -> cache_run s cs tr s'.
Proof.
  induction cs as [|c cs IH]; intros s tr s'.
  - intros [= <- <-]. constructor.
  - cbn [perform_all]. unfold_monad. fold (perform_all cs).
    destruct (perform c s) as [[] s1 t1|t1] eqn:Hc; [|discriminate].
    destruct (perform_all cs s1) as [[] s2 t2|t2] eqn:Hcs; [|discriminate].
    intros [= <- <-]. econstructor; [apply perform_sound; exact Hc|].
    apply IH. exact Hcs.
Qed.

(** *** Stop, restart and destruction *)

Lemma released_app tr1 tr2 : released (tr1 ++ tr2) = released tr1 ++ released tr2.
Proof.
  induction tr1 as [|e tr1 IH]; [reflexivity|].
  destruct e; cbn [app released]; rewrite IH; reflexivity.
Qed.

Lemma released_releases bufs : released (BufferRelease <$> bufs) = bufs.
Proof.
  induction bufs as [|b bufs IH]; [reflexivity|].
  cbn [fmap list_fmap released]. f_equal. exact IH.
Qed.

(** X1: [stop] on a started cache releases every queued buffer, in queue
    order, and nothing else, calls the source's [stop] once and returns its
    status whatever it is; the cache is not started afterwards even when the
    source failed to stop, its queue is empty and its duration 0, while the
    end-of-stream flag, the pending seek and the scheduler's stop flag are
    left as they were.  [stop] on a cache that is not started fails its
    [CHECK] before anything happens. *)
Theorem stop_releases_and_reports s err src :
  source_stop (mSource s) = (err, src) ->
  (mStarted s = false -> stop s = Aborted []) /\
  (mStarted s = true ->
   exists s',
     stop s = Done err s' ((BufferRelease <$> mCachedBuffers s) ++ [SourceStop]) /\
     released ((BufferRelease <$> mCachedBuffers s) ++ [SourceStop]) =
       mCachedBuffers s /\
     mStarted s' = false /\
     mCachedBuffers s' = [] /\
     mCacheDurationUs s' = 0 /\
     mSource s' = src /\
     mReachedEOS s' = mReachedEOS s /\
     mSeekTimeUs s' = mSeekTimeUs s /\
     mPrefetcherStopped s' = mPrefetcherStopped s).
Proof.
  intros Hsrc. rewrite stop_run, Hsrc. split.
  - intros ->. reflexivity.
  - intros ->. eexists. split; [reflexivity|].
    split; [|repeat split].
    rewrite released_app, released_releases. apply app_nil_r.
Qed.

Lemma end_of_stream_step c s tr s' :
  cache_step c s tr s' -> ~ requests_seek c -> mReachedEOS s = true ->
  mReachedEOS s' = true.
Proof.
  intros Hstep Hquiet Heos.
  destruct Hstep as [params err s s' tr Hrun|err s s' tr Hrun
                    |options r s s' tr Hrun|r s s' tr Hrun
                    |s s' tr Hrun|s s' tr Hrun].
  - run_step Hrun; cbn; assumption.
  - run_step Hrun; cbn; assumption.
  - cbn [requests_seek] in Hquiet.
    destruct (options ≫= getSeekTo) as [T|] eqn:Hseek;
      [exfalso; apply Hquiet; eauto|].
    rewrite read_run, Hseek in Hrun. run_step Hrun; cbn; assumption.
  - run_step Hrun; cbn; assumption.
  - run_step Hrun; cbn; first [assumption|reflexivity].
  - run_step Hrun; cbn; assumption.
Qed.

(** X2: Only a [read] that asks for a seek leaves end-of-stream: through any
    other completed calls, stop and a new start included, a cache at
    end-of-stream stays there, is not eligible and reports itself as not
    caching. *)
Theorem end_of_stream_sticks s cs tr s' :
  cache_run s cs tr s' ->
  Forall (fun c => ~ requests_seek c) cs ->
  mReachedEOS s = true ->
  mReachedEOS s' = true /\ ~ eligible s' /\ getCacheDurationUs s' = (false, 0).
Proof.
  intros Hrun Hquiet Heos.
  assert (Heos' : mReachedEOS s' = true).
  { induction Hrun as [s|c cs s s1 s2 tr tr' Hstep Hrun IH]; [exact Heos|].
    apply Forall_cons in Hquiet as [Hc Hcs].
    apply IH; [exact Hcs|]. eapply end_of_stream_step; eassumption. }
  split; [exact Heos'|]. split.
  - intros (_ & Hnot & _). congruence.
  - unfold getCacheDurationUs. rewrite Heos'.
    destruct (mStarted s'); reflexivity.
Qed.

Lemma idle_empty_step c s tr s' :
  cache_step c s tr s' -> idle_empty s -> idle_empty s'.
Proof.
  unfold idle_empty. intros Hstep Hidle.
  destruct Hstep as [params err s s' tr Hrun|err s s' tr Hrun
                    |options r s s' tr Hrun|r s s' tr Hrun
                    |s s' tr Hrun|s s' tr Hrun];
    run_step Hrun; cbn; intros Hoff;
    try discriminate; try reflexivity; try congruence; auto.
  all: try (specialize (Hidle Hoff); discriminate).
  all: match goal with
       | E : negb (mStarted ?x) = false, F : mStarted ?x = false |- _ =>
           rewrite F in E; discriminate
       end.
Qed.

(** X3: A cache that is not started holds no buffer, at whatever point of its
    life; so its destructor, which stops the cache only when it is started,
    releases every buffer the cache holds, calls the source's [stop]
    exactly when the cache was started, and cannot fail the [CHECK] of
    [stop]. *)
Theorem destroy_releases_everything index (source : Src) cs tr s :
  cache_run (new_PrefetchedSource index source) cs tr s ->
  idle_empty s /\
  exists s' tr',
    destroy s = Done tt s' tr' /\
    released tr' = mCachedBuffers s /\
    mCachedBuffers s' = [] /\
    mStarted s' = false /\
    (SourceStop ∈ tr' <-> mStarted s = true).
Proof.
  intros Hrun.
  assert (Hgen : forall s0 cs0 tr0 s1,
            cache_run s0 cs0 tr0 s1 -> idle_empty s0 -> idle_empty s1).
  { clear. induction 1 as [s0|c cs s0 s1 s2 tr tr' Hstep Hrun IH]; [auto|].
    intros Hidle. apply IH. eapply idle_empty_step; eassumption. }
  assert (Hidle : idle_empty s)
    by (apply (Hgen _ _ _ _ Hrun); intros _; reflexivity).
  split; [exact Hidle|].
  unfold destroy. unfold_monad.
  destruct (mStarted s) eqn:Hstarted.
  - rewrite stop_run, Hstarted.
    destruct (source_stop (mSource s)) as [err src].
    eexists _, _. split; [reflexivity|]. rewrite !app_nil_r. cbn [app].
    split; [rewrite released_app, released_releases; apply app_nil_r|].
    split; [reflexivity|]. split; [reflexivity|].
    split; [reflexivity|]. intros _. apply elem_of_app. right.
    apply list_elem_of_here.
  - exists s, []. split; [reflexivity|].
    split; [symmetry; exact (Hidle Hstarted)|].
    split; [exact (Hidle Hstarted)|]. split; [exact Hstarted|].
    split; [intros Hin; apply not_elem_of_nil in Hin; contradiction
           |discriminate].
Qed.

(** *** The copy a fetch queues *)

(** X4: Where the range of the source's buffer lies within its payload, the
    copy holds exactly the bytes of that range, as its whole payload with
    range offset 0; its metadata holds the timestamp of the source's buffer
    when there is one, and no other key. *)
Theorem copy_buffer_keeps_range_and_timestamp b :
  (range_offset b + range_length b <= length (data b))%nat ->
  data (copy_buffer b) = take (range_length b) (drop (range_offset b) (data b)) /\
  length (data (copy_buffer b)) = range_length b /\
  range_offset (copy_buffer b) = 0%nat /\
  range_length (copy_buffer b) = range_length b /\
  forall key,
    meta_data (copy_buffer b) !! key =
      if decide (key = kKeyTime) then meta_data b !! kKeyTime else None.
Proof.
  intros Hrange.
  assert (Hdata : data (copy_buffer b) =
                  take (range_length b) (drop (range_offset b) (data b))).
  { unfold copy_buffer, findInt64.
    destruct (meta_data b !! kKeyTime);
      cbn [data set_meta_data set_data new_MediaBuffer memcpy];
      unfold memcpy; rewrite drop_replicate, Nat.sub_diag; cbn [replicate];
      apply app_nil_r. }
  split; [exact Hdata|]. split.
  { rewrite Hdata, length_take, length_drop. lia. }
  unfold copy_buffer, findInt64, setInt64.
  destruct (meta_data b !! kKeyTime) as [t|] eqn:Ht;
    cbn [range_offset range_length meta_data set_meta_data set_data
         new_MediaBuffer];
    (split; [reflexivity|]); (split; [reflexivity|]); intros key;
    destruct (decide (key = kKeyTime)) as [->|Hne].
  - apply lookup_insert_eq.
  - rewrite lookup_insert_ne by congruence. apply lookup_empty.
  - apply lookup_empty.
  - apply lookup_empty.
Qed.

(** *** Seeks and eligibility *)

(** X5: A [read] with a seek leaves the cache eligible, whatever it was before
    (at end-of-stream, at or above the ceiling): started, end-of-stream
    cleared and nothing buffered. *)
Theorem seek_makes_eligible options T s r s' tr :
  options ≫= getSeekTo = Some T ->
  read options s = Done r s' tr ->
  eligible s' /\ getCacheDurationUs s' = (true, 0).
Proof.
  intros Hseek Hrun. rewrite read_run, Hseek in Hrun.
  run_step Hrun; (split; [repeat split; cbn; auto|]);
    unfold getCacheDurationUs; cbn;
    match goal with E : mStarted _ = true |- _ => rewrite E end; reflexivity.
Qed.

(** *** Spans of ordered timestamps *)

(** X6: With two or more buffers queued whose oldest and newest timestamps are
    non-negative [int64_t] values in non-decreasing order, the recomputed
    duration is their exact difference: it does not wrap and is not
    negative. *)
Theorem ordered_timestamps_give_exact_span s t_old t_new :
  (2 <= length (mCachedBuffers s))%nat ->
  head (mCachedBuffers s) ≫= timestamp = Some t_old ->
  last (mCachedBuffers s) ≫= timestamp = Some t_new ->
  0 <= t_old -> t_old <= t_new -> t_new <= int64_max ->
  updateCacheDuration_l s = Done tt (set_mCacheDurationUs (t_new - t_old) s) [] /\
  0 <= t_new - t_old.
Proof.
  intros Hlen Hold Hnew H0 Hle Hmax. split; [|lia].
  rewrite updateCacheDuration_l_span. unfold queue_span.
  destruct (mCachedBuffers s) as [|b0 [|b1 rest]];
    [cbn in Hlen; lia..|].
  change (head (b0 :: b1 :: rest) ≫= timestamp) with (timestamp b0) in Hold.
  rewrite Hold, Hnew. rewrite int64_sub_exact; [reflexivity|].
  unfold is_int64, int64_min, int64_max in *. lia.
Qed.

(** *** Order of delivery *)




Lemma read_n_drains k bufs : forall s,
  mCachedBuffers s = bufs ->
  mStarted s = true ->
  queue_stamped bufs ->
  k = 0%nat \/ mReachedEOS s = true \/ mPrefetcherStopped s = true ->
  exists s',
    read_n (length bufs + k) s =
      Done (((fun b => ReadReturned OK (Some b)) <$> bufs) ++
            replicate k (ReadReturned ERROR_END_OF_STREAM None)) s' [] /\
    mCachedBuffers s' = [].
Proof.
  induction bufs as [|b rest IH]; intros s Hbufs Hstarted Hq Hend.
  - cbn [length Nat.add fmap list_fmap app].
    destruct Hend as [->|Hend]; [exists s; split; [reflexivity|exact Hbufs]|].
    assert (Hread : read None s =
                    Done (ReadReturned ERROR_END_OF_STREAM None) s []).
    { rewrite read_run, Hstarted. cbn [mbind option_bind].
      rewrite read_loop_run, Hbufs.
      destruct Hend as [->| ->]; [rewrite andb_false_r|]; reflexivity. }
    exists s. split; [|exact Hbufs]. clear Hbufs Hq.
    induction k as [|k IHk]; [reflexivity|].
    cbn [read_n replicate]. unfold_monad.
    rewrite Hread, IHk. reflexivity.
  - destruct (queue_stamped_span rest (queue_stamped_tail _ _ Hq)) as [d Hd].
    set (s1 := set_mCacheDurationUs d (set_mCachedBuffers rest s)).
    assert (Hread : read None s = Done (ReadReturned OK (Some b)) s1 []).
    { rewrite read_run, Hstarted. cbn [mbind option_bind].
      rewrite read_loop_run, Hbufs, Hd. reflexivity. }
    destruct (IH s1 eq_refl Hstarted (queue_stamped_tail _ _ Hq) Hend)
      as (s' & Hrest & Hempty).
    exists s'. split; [|exact Hempty].
    cbn [length Nat.add read_n fmap list_fmap app]. unfold_monad.
    rewrite Hread, Hrest. reflexivity.
Qed.


(** X8: On a started cache at end-of-stream, or whose scheduler has stopped,
    plain reads never sleep: they first return every queued buffer, oldest
    first, and only then the end-of-stream status, again and again. *)
Theorem backlog_then_end_of_stream s k :
  mStarted s = true ->
  mReachedEOS s = true \/ mPrefetcherStopped s = true ->
  queue_stamped (mCachedBuffers s) ->
  exists s',
    read_n (length (mCachedBuffers s) + k) s =
      Done (((fun b => ReadReturned OK (Some b)) <$> mCachedBuffers s) ++
            replicate k (ReadReturned ERROR_END_OF_STREAM None)) s' [] /\
    mCachedBuffers s' = [].
Proof.
  intros Hstarted Hend Hq.
  apply read_n_drains; auto.
Qed.

End CacheFacts.

(** ** The scheduler *)

Section SchedulerFacts.
Context {Src : Type} `{MediaSource Src}.

Abbreviation PS := (PrefetchedSource Src).

Implicit Types s : PS.
Implicit Types p : Prefetcher Src.
Implicit Types srcs seen rest : list (option PS).
Implicit Types st : @ScanState Src.

(** *** The scan *)

Lemma eligible_dec s : {eligible s} + {~ eligible s}.
Proof.
  unfold eligible.
  destruct (mStarted s); [|right; intros [? _]; discriminate].
  destruct (mReachedEOS s); [right; intros (_ & ? & _); discriminate|].
  destruct (Z_lt_dec (mCacheDurationUs s) kMaxCacheDurationUs);
    [left; auto|right; intros (_ & _ & ?); contradiction].
Qed.

Lemma scan_body_eligible i s st :
  eligible s ->
  threadFunc_scan_body i (Some s) st =
    if (minIndex st <? 0) || (mCacheDurationUs s <? minCacheDurationUs st)
    then {| minCacheDurationUs := mCacheDurationUs s;
            minIndex := Z.of_nat i; minSource := Some s |}
    else st.
Proof.
  intros (Hstarted & Heos & Hlt).
  unfold threadFunc_scan_body, getCacheDurationUs.
  rewrite Hstarted, Heos. cbn [negb orb].
  apply Z.leb_gt in Hlt. rewrite Hlt. reflexivity.
Qed.

Lemma scan_body_ineligible i s st :
  ~ eligible s -> threadFunc_scan_body i (Some s) st = st.
Proof.
  intros Hnot. unfold threadFunc_scan_body, getCacheDurationUs.
  destruct (mStarted s) eqn:Hstarted; [|reflexivity].
  destruct (mReachedEOS s) eqn:Heos; [reflexivity|]. cbn [negb orb].
  destruct (kMaxCacheDurationUs <=? mCacheDurationUs s) eqn:Hle; [reflexivity|].
  exfalso. apply Hnot. apply Z.leb_gt in Hle. repeat split; assumption.
Qed.

Lemma lookup_snoc_resolved seen (wp : option PS) j sj :
  (seen ++ [wp]) !! j = Some (Some sj) ->
  seen !! j = Some (Some sj) \/ (j = length seen /\ wp = Some sj).
Proof.
  intros Hj. apply lookup_snoc_Some in Hj as [[_ Hj]|[-> Hj]]; auto.
Qed.

Lemma least_buffered_new seen s :
  eligible s ->
  (forall j sj, seen !! j = Some (Some sj) -> eligible sj ->
     mCacheDurationUs s < mCacheDurationUs sj) ->
  least_buffered (seen ++ [Some s]) (length seen) s.
Proof.
  intros Hs Hless. split; [apply list_lookup_middle, eq_refl|].
  split; [exact Hs|]. intros j sj Hj Hsj.
  apply lookup_snoc_resolved in Hj as [Hj|[-> [= <-]]]; [|lia].
  specialize (Hless _ _ Hj Hsj). lia.
Qed.

Lemma scan_step seen wp st :
  scan_result seen st ->
  scan_result (seen ++ [wp]) (threadFunc_scan_body (length seen) wp st).
Proof.
  intros Hres. destruct wp as [s|].
  2:{ cbn [threadFunc_scan_body].
      destruct Hres as [(Hnone & ?)|(i & si & (Hi & Hel & Hmin) & ?)].
      - left. split; [|assumption]. intros j sj Hj.
        apply lookup_snoc_resolved in Hj as [Hj|[_ [=]]]. eauto.
      - right. exists i, si. split; [|assumption].
        split; [by apply lookup_app_l_Some|]. split; [exact Hel|].
        intros j sj Hj. apply lookup_snoc_resolved in Hj as [Hj|[_ [=]]].
        eauto. }
  destruct (eligible_dec s) as [Hs|Hs].
  2:{ rewrite (scan_body_ineligible _ _ _ Hs).
      destruct Hres as [(Hnone & ?)|(i & si & (Hi & Hel & Hmin) & ?)].
      - left. split; [|assumption]. intros j sj Hj.
        apply lookup_snoc_resolved in Hj as [Hj|[_ [= <-]]]; eauto.
      - right. exists i, si. split; [|assumption].
        split; [by apply lookup_app_l_Some|]. split; [exact Hel|].
        intros j sj Hj Hsj.
        apply lookup_snoc_resolved in Hj as [Hj|[_ [= <-]]]; [eauto|].
        contradiction. }
  rewrite (scan_body_eligible _ _ _ Hs).
  destruct Hres as [(Hnone & Hidx & Hdur & Hsrc)
                   |(i & si & (Hi & Hel & Hmin) & Hidx & Hdur & Hsrc)].
  - rewrite Hidx. cbn [Z.ltb Z.compare orb].
    right. exists (length seen), s. split; [|auto].
    apply least_buffered_new; [exact Hs|].
    intros j sj Hj Hsj. exfalso. eapply Hnone; eauto.
  - rewrite Hidx, Hdur.
    replace (Z.of_nat i <? 0) with false by (symmetry; apply Z.ltb_ge; lia).
    cbn [orb].
    destruct (mCacheDurationUs s <? mCacheDurationUs si) eqn:Hlt.
    + apply Z.ltb_lt in Hlt. right. exists (length seen), s. split; [|auto].
      apply least_buffered_new; [exact Hs|].
      intros j sj Hj Hsj. specialize (Hmin _ _ Hj Hsj). lia.
    + apply Z.ltb_ge in Hlt. right. exists i, si.
      split; [|auto]. split; [by apply lookup_app_l_Some|].
      split; [exact Hel|]. intros j sj Hj Hsj.
      apply lookup_snoc_resolved in Hj as [Hj|[-> [= <-]]]; [eauto|].
      apply lookup_lt_Some in Hi. split; [lia|]. lia.
Qed.

Lemma for_sources_scan rest : forall seen st,
  scan_result seen st ->
  scan_result (seen ++ rest)
    (for_sources threadFunc_scan_body (length seen) rest st).
Proof.
  induction rest as [|wp rest IH]; intros seen st Hres.
  - rewrite app_nil_r. exact Hres.
  - cbn [for_sources].
    replace (seen ++ wp :: rest) with ((seen ++ [wp]) ++ rest)
      by (rewrite <- app_assoc; reflexivity).
    replace (S (length seen)) with (length (seen ++ [wp]))
      by (rewrite length_app; cbn [length]; lia).
    apply IH, scan_step, Hres.
Qed.

Lemma threadFunc_scan_result srcs : scan_result srcs (threadFunc_scan srcs).
Proof.
  apply (for_sources_scan srcs []). left.
  split; [|auto]. intros j sj Hj. rewrite lookup_nil in Hj. discriminate.
Qed.

Lemma least_buffered_unique srcs i s i' s' :
  least_buffered srcs i s -> least_buffered srcs i' s' -> i = i' /\ s = s'.
Proof.
  intros (Hi & Hel & Hmin) (Hi' & Hel' & Hmin').
  destruct (Hmin _ _ Hi' Hel') as [Hle Htie].
  destruct (Hmin' _ _ Hi Hel) as [Hle' Htie'].
  assert (i = i') by lia. subst i'. split; [reflexivity|congruence].
Qed.

(** *** One turn of the worker *)

Lemma threadFunc_iteration_run p :
  mDone p = false ->
  threadFunc_iteration p =
    let st := threadFunc_scan (mSources p) in
    if minIndex st <? 0 then Done LoopContinue p [CondWaitRelative 10000000]
    else
      match minSource st with
      | Some source =>
          match cacheMore source with
          | Done _ source' tr =>
              Done LoopContinue
                (set_mSources
                   (<[Z.to_nat (minIndex st) := Some source']> (mSources p)) p)
                (CondWaitRelative 10000000 ::
                   (InSource (Z.to_nat (minIndex st)) <$> tr))
          | Aborted tr =>
              Aborted (CondWaitRelative 10000000 ::
                         (InSource (Z.to_nat (minIndex st)) <$> tr))
          end
      | None => Done LoopContinue p [CondWaitRelative 10000000]
      end.
Proof.
  intros Hdone. unfold threadFunc_iteration, on_source. unfold_monad.
  rewrite Hdone. cbv zeta.
  destruct (minIndex (threadFunc_scan (mSources p)) <? 0); [reflexivity|].
  destruct (minSource (threadFunc_scan (mSources p))) as [source|];
    [|reflexivity].
  destruct (cacheMore source) as [[] source' tr|tr]; cbn [app];
    rewrite ?app_nil_r; reflexivity.
Qed.

(** C1: on a turn of the worker loop (shutdown not requested), when some
    resolvable cache is eligible the scan selects one entry: it is eligible
    (started, not at end-of-stream, below the ceiling), it buffers no more
    than any eligible entry and strictly less than every eligible entry
    registered before it, no other entry has that property, and the turn
    fetches on that cache and on no other; when no entry is eligible the
    turn fetches nothing. *)
Theorem least_buffered_first p :
  mDone p = false ->
  (none_eligible (mSources p) ->
   threadFunc_iteration p = Done LoopContinue p [CondWaitRelative 10000000]) /\
  (forall j sj,
     mSources p !! j = Some (Some sj) -> eligible sj ->
     exists i s,
       least_buffered (mSources p) i s /\
       (forall i' s', least_buffered (mSources p) i' s' -> i' = i /\ s' = s) /\
       minIndex (threadFunc_scan (mSources p)) = Z.of_nat i /\
       minSource (threadFunc_scan (mSources p)) = Some s /\
       threadFunc_iteration p =
         match cacheMore s with
         | Done _ s' tr =>
             Done LoopContinue
               (set_mSources (<[i := Some s']> (mSources p)) p)
               (CondWaitRelative 10000000 :: (InSource i <$> tr))
         | Aborted tr =>
             Aborted (CondWaitRelative 10000000 :: (InSource i <$> tr))
         end).
Proof.
  intros Hdone. rewrite (threadFunc_iteration_run p Hdone). cbv zeta.
  destruct (threadFunc_scan_result (mSources p))
    as [(Hnone & Hidx & _ & Hsrc)|(i & s & Hleast & Hidx & _ & Hsrc)].
  - rewrite Hidx. split; [reflexivity|].
    intros j sj Hj Hsj. exfalso. eapply Hnone; eauto.
  - rewrite Hidx, Hsrc, Nat2Z.id.
    replace (Z.of_nat i <? 0) with false by (symmetry; apply Z.ltb_ge; lia).
    split.
    + intros Hnone. exfalso. destruct Hleast as (Hi & Hel & _).
      eapply Hnone; eauto.
    + intros j sj _ _. exists i, s. split; [exact Hleast|].
      split; [|auto]. intros i' s' Hleast'.
      destruct (least_buffered_unique _ _ _ _ _ Hleast Hleast'); auto.
Qed.

(** *** Errors of the source *)

(** C5: when the source's [read] returns a status other than [OK],
    [cacheMore] records end-of-stream, signals the cache's condition, leaves
    the queue and the duration as they were, has read the source once and
    returns (it has no result to return); a worker turn that selected this
    cache ends in [LoopContinue] with shutdown still not requested, and the
    cache is not eligible afterwards. *)
Theorem fetch_error_absorbed s err buffer src :
  mStarted s = true ->
  source_read (pending_options s) (mSource s) = ((err, buffer), src) ->
  err <> OK ->
  exists s',
    cacheMore s = Done tt s' [SourceRead (pending_options s); CondSignal] /\
    mReachedEOS s' = true /\
    mCachedBuffers s' = mCachedBuffers s /\
    mCacheDurationUs s' = mCacheDurationUs s /\
    ~ eligible s' /\
    forall p,
      mDone p = false ->
      minSource (threadFunc_scan (mSources p)) = Some s ->
      exists i,
        minIndex (threadFunc_scan (mSources p)) = Z.of_nat i /\
        threadFunc_iteration p =
          Done LoopContinue (set_mSources (<[i := Some s']> (mSources p)) p)
            [CondWaitRelative 10000000;
             InSource i (SourceRead (pending_options s));
             InSource i CondSignal] /\
        mDone (set_mSources (<[i := Some s']> (mSources p)) p) = false.
Proof.
  intros Hstarted Hread Herr. apply Z.eqb_neq in Herr.
  assert (Hfetch : cacheMore s =
            Done tt
              (set_mReachedEOS true
                 (set_mSource src
                    (if 0 <=? mSeekTimeUs s then set_mSeekTimeUs (-1) s else s)))
              [SourceRead (pending_options s); CondSignal]).
  { rewrite cacheMore_run, Hstarted. cbn [negb]. cbv zeta.
    rewrite Hread, Herr. reflexivity. }
  eexists. split; [exact Hfetch|].
  split; [reflexivity|].
  split; [destruct (0 <=? mSeekTimeUs s); reflexivity|].
  split; [destruct (0 <=? mSeekTimeUs s); reflexivity|].
  split; [intros (_ & Heos & _); discriminate|].
  intros p Hdone Hsel.
  destruct (threadFunc_scan_result (mSources p))
    as [(_ & _ & _ & Hsrc)|(i & s0 & Hleast & Hidx & _ & Hsrc)];
    [congruence|].
  exists i. split; [exact Hidx|].
  rewrite (threadFunc_iteration_run p Hdone). cbv zeta.
  rewrite Hidx, Hsel, Nat2Z.id, Hfetch.
  replace (Z.of_nat i <? 0) with false by (symmetry; apply Z.ltb_ge; lia).
  split; [reflexivity|exact Hdone].
Qed.

(** *** Shutdown *)

Lemma set_mSources_same p : set_mSources (mSources p) p = p.
Proof. destruct p; reflexivity. Qed.

Lemma threadFunc_notify_run rest : forall seen p,
  mSources p = seen ++ rest ->
  exists tr,
    threadFunc_notify (length seen) rest p =
      Done tt
        (set_mSources (seen ++ (notified <$> rest)) p)
        tr /\
    forall k s, rest !! k = Some (Some s) ->
                InSource (length seen + k) CondSignal ∈ tr.
Proof.
  induction rest as [|[source|] rest IH]; intros seen p Hp.
  - exists []. cbn [threadFunc_notify fmap list_fmap]. split.
    + rewrite <- Hp. rewrite set_mSources_same. reflexivity.
    + intros k s Hk. rewrite lookup_nil in Hk. discriminate.
  - set (source' := set_mPrefetcherStopped true source).
    set (p' := set_mSources (<[length seen := Some source']> (mSources p)) p).
    assert (Hp' : mSources p' = (seen ++ [Some source']) ++ rest).
    { unfold p'. cbn [mSources set_mSources]. rewrite Hp.
      rewrite insert_app_r_alt by lia. rewrite Nat.sub_diag.
      rewrite <- app_assoc. reflexivity. }
    destruct (IH _ _ Hp') as (tr & Hrun & Hsig).
    rewrite length_app in Hrun, Hsig. cbn [length] in Hrun, Hsig.
    rewrite Nat.add_1_r in Hrun.
    exists (InSource (length seen) CondSignal :: tr). split.
    + cbn [threadFunc_notify]. unfold on_source. unfold_monad.
      rewrite onPrefetcherStopped_run. fold source' p'.
      fold (@threadFunc_notify Src). rewrite Hrun.
      rewrite <- app_assoc. reflexivity.
    + intros [|k] s Hk.
      * rewrite Nat.add_0_r. apply list_elem_of_here.
      * apply list_elem_of_further.
        replace (length seen + S k)%nat with (length seen + 1 + k)%nat by lia.
        eapply Hsig. exact Hk.
  - assert (Hp' : mSources p = (seen ++ [None]) ++ rest)
      by (rewrite <- app_assoc; exact Hp).
    destruct (IH _ _ Hp') as (tr & Hrun & Hsig).
    rewrite length_app in Hrun, Hsig. cbn [length] in Hrun, Hsig.
    rewrite Nat.add_1_r in Hrun.
    exists tr. split.
    + cbn [threadFunc_notify]. rewrite Hrun. rewrite <- app_assoc. reflexivity.
    + intros [|k] s Hk; [discriminate|].
      replace (length seen + S k)%nat with (length seen + 1 + k)%nat by lia.
      eapply Hsig. exact Hk.
Qed.

Lemma threadFunc_exit_run p :
  exists tr,
    threadFunc_exit p =
      Done tt
        (set_mThreadExited true
           (set_mSources (notified <$> mSources p) p))
        (tr ++ [CondSignal]) /\
    forall k s, mSources p !! k = Some (Some s) -> InSource k CondSignal ∈ tr.
Proof.
  destruct (threadFunc_notify_run (mSources p) [] p eq_refl)
    as (tr & Hrun & Hsig).
  exists tr. split; [|exact Hsig].
  unfold threadFunc_exit. unfold_monad.
  change 0%nat with (length (@nil (option PS))). rewrite Hrun.
  cbn [app]. reflexivity.
Qed.

Lemma threadFunc_breaks turns p :
  mDone p = true ->
  exists tr,
    threadFunc (S turns) p =
      Done true
        (set_mThreadExited true
           (set_mSources (notified <$> mSources p) p))
        (tr ++ [CondSignal]) /\
    forall k s, mSources p !! k = Some (Some s) -> InSource k CondSignal ∈ tr.
Proof.
  intros Hdone. destruct (threadFunc_exit_run p) as (tr & Hrun & Hsig).
  exists tr. split; [|exact Hsig].
  cbn [threadFunc]. unfold threadFunc_iteration. unfold_monad.
  rewrite Hdone, Hrun. cbn [app]. rewrite app_nil_r. reflexivity.
Qed.

(** A read on a started cache to which the scheduler has announced its
    stop never sleeps. *)
Lemma read_when_stopped options s :
  mStarted s = true -> mPrefetcherStopped s = true ->
  (forall T, options ≫= getSeekTo = Some T -> 0 <= T) ->
  queue_stamped (mCachedBuffers s) ->
  match options ≫= getSeekTo, mCachedBuffers s with
  | None, b :: rest =>
      exists s', read options s = Done (ReadReturned OK (Some b)) s' [] /\
                 mCachedBuffers s' = rest
  | None, [] => read options s = Done (ReadReturned ERROR_END_OF_STREAM None) s []
  | Some T, bufs =>
      exists s', read options s =
                   Done (ReadReturned ERROR_END_OF_STREAM None) s'
                     (BufferRelease <$> bufs) /\
                 mCachedBuffers s' = []
  end.
Proof.
  intros Hstarted Hstopped Hseek Hq. rewrite read_run, Hstarted.
  destruct (options ≫= getSeekTo) as [T|] eqn:Hopt.
  - assert (HT : (0 <=? T) = true) by (apply Z.leb_le; auto).
    rewrite HT, read_loop_run.
    cbn [mCachedBuffers mPrefetcherStopped set_mSeekTimeUs set_mReachedEOS
         set_mCacheDurationUs set_mCachedBuffers].
    rewrite Hstopped. cbn [negb andb after_events]. rewrite app_nil_r.
    eexists. split; reflexivity.
  - assert (Hgo : can_proceed s) by (right; right; exact Hstopped).
    pose proof (read_loop_proceeds s Hgo Hq) as Hloop.
    destruct (mCachedBuffers s) as [|b rest]; [exact Hloop|].
    destruct Hloop as (d & _ & ->). eexists. split; reflexivity.
Qed.

(** C6: a shutdown request sets [mDone] and the requester sleeps.  With
    [mDone] set, the worker leaves its loop at the top of its next turn,
    sets the stopped flag of every resolvable cache and signals its
    condition, then sets [mThreadExited], after which [stopThread] returns.
    From then on, after any further calls on such a cache, a [read] (on a
    started cache, as [read] requires) does not sleep: with nothing queued
    when it reaches its wait loop, which includes every read that carries a
    seek, it returns end-of-stream, and with buffers queued it returns the
    oldest one. *)
Theorem shutdown_unblocks_readers p0 p turns :
  mThreadExited p0 = false ->
  mDone p = true ->
  stopThread p0 = Done false (set_mDone true p0) [CondSignal; CondWait] /\
  mDone (set_mDone true p0) = true /\
  exists p2 tr,
    threadFunc (S turns) p = Done true p2 tr /\
    mThreadExited p2 = true /\
    stopThread p2 = Done true p2 [] /\
    (forall i, mSources p !! i = Some None -> mSources p2 !! i = Some None) /\
    forall i s,
      mSources p !! i = Some (Some s) ->
      mSources p2 !! i = Some (Some (set_mPrefetcherStopped true s)) /\
      InSource i CondSignal ∈ tr /\
      forall cs tr1 s1,
        cache_run (set_mPrefetcherStopped true s) cs tr1 s1 ->
        queue_stamped (mCachedBuffers s) ->
        mStarted s1 = true ->
        mPrefetcherStopped s1 = true /\
        forall options,
          (forall T, options ≫= getSeekTo = Some T -> 0 <= T) ->
          match options ≫= getSeekTo, mCachedBuffers s1 with
          | None, b :: rest =>
              exists s2,
                read options s1 = Done (ReadReturned OK (Some b)) s2 [] /\
                mCachedBuffers s2 = rest
          | None, [] =>
              read options s1 =
                Done (ReadReturned ERROR_END_OF_STREAM None) s1 []
          | Some T, bufs =>
              exists s2,
                read options s1 =
                  Done (ReadReturned ERROR_END_OF_STREAM None) s2
                    (BufferRelease <$> bufs) /\
                mCachedBuffers s2 = []
          end.
Proof.
  intros Hexited Hdone.
  destruct (threadFunc_breaks turns p Hdone) as (tr & Hrun & Hsig).
  split.
  { unfold stopThread. unfold_monad. rewrite Hexited. reflexivity. }
  split; [reflexivity|].
  eexists _, _. split; [exact Hrun|]. split; [reflexivity|].
  split; [reflexivity|].
  cbn [mSources set_mThreadExited set_mSources]. split.
  - intros i Hi. rewrite list_lookup_fmap, Hi. reflexivity.
  - intros i s Hi. split; [rewrite list_lookup_fmap, Hi; reflexivity|].
    split.
    { apply elem_of_app. left. eapply Hsig. exact Hi. }
    intros cs tr1 s1 Hcs Hq Hstarted.
    destruct (stopped_run _ _ _ _ Hcs eq_refl Hq) as [Hstopped Hq1].
    split; [exact Hstopped|]. intros options Hseek.
    apply read_when_stopped; assumption.
Qed.

(** *** Warm-up *)

Lemma getCachedDurationUs_body_scan i wp st :
  getCachedDurationUs_body i wp (minCacheDurationUs st, minIndex st) =
    (minCacheDurationUs (threadFunc_scan_body i wp st),
     minIndex (threadFunc_scan_body i wp st)).
Proof.
  unfold getCachedDurationUs_body, threadFunc_scan_body.
  destruct wp as [source|]; [|reflexivity].
  destruct (getCacheDurationUs source) as [caching cacheDurationUs].
  destruct (negb caching); [reflexivity|].
  destruct (kMaxCacheDurationUs <=? cacheDurationUs); [reflexivity|].
  cbn [fst snd].
  destruct ((minIndex st <? 0) || (cacheDurationUs <? minCacheDurationUs st));
    reflexivity.
Qed.

Lemma getCachedDurationUs_for_sources srcs : forall i st,
  for_sources getCachedDurationUs_body i srcs
    (minCacheDurationUs st, minIndex st) =
    (minCacheDurationUs (for_sources threadFunc_scan_body i srcs st),
     minIndex (for_sources threadFunc_scan_body i srcs st)).
Proof.
  induction srcs as [|wp srcs IH]; intros i st; [reflexivity|].
  cbn [for_sources]. rewrite getCachedDurationUs_body_scan. apply IH.
Qed.

(** Both scans find the same minimum; the warm-up query tells "none
    eligible" from the duration it found, not from the index. *)
Lemma getCachedDurationUs_run p :
  getCachedDurationUs p =
    let d := minCacheDurationUs (threadFunc_scan (mSources p)) in
    (if d <? 0 then 0 else d, d <? 0).
Proof.
  pose proof (getCachedDurationUs_for_sources (mSources p) 0%nat
                {| minCacheDurationUs := -1; minIndex := -1;
                   minSource := None |}) as Hscan.
  cbn [minCacheDurationUs minIndex] in Hscan.
  unfold getCachedDurationUs, threadFunc_scan. rewrite Hscan. reflexivity.
Qed.

(** The warm-up query where no eligible cache has a negative span. *)
Lemma getCachedDurationUs_nonnegative p :
  (forall i s, mSources p !! i = Some (Some s) -> eligible s ->
               0 <= mCacheDurationUs s) ->
  (none_eligible (mSources p) /\ getCachedDurationUs p = (0, true)) \/
  (exists i s, least_buffered (mSources p) i s /\
               getCachedDurationUs p = (mCacheDurationUs s, false)).
Proof.
  intros Hnonneg. rewrite getCachedDurationUs_run. cbv zeta.
  destruct (threadFunc_scan_result (mSources p))
    as [(Hnone & _ & -> & _)|(i & s & Hleast & _ & -> & _)].
  - left. split; [exact Hnone|reflexivity].
  - right. exists i, s. split; [exact Hleast|].
    destruct Hleast as (Hi & Hel & _).
    replace (mCacheDurationUs s <? 0) with false; [reflexivity|].
    symmetry. apply Z.ltb_ge. eauto.
Qed.

(** [prepare] returns at the first poll whose query reports no more data or
    two seconds buffered; whenever it returns, it returns [OK]. *)
Lemma prepare_run polls :
  (forall err, prepare polls = Some err -> err = OK) /\
  (prepare polls = Some OK <->
   Exists (fun p => (getCachedDurationUs p).2 = true \/
                    2000000 <= (getCachedDurationUs p).1) polls).
Proof.
  induction polls as [|p later [IHok IH]].
  - split; [discriminate|]. split; [discriminate|].
    intros Hex. apply Exists_nil in Hex. contradiction.
  - cbn [prepare].
    destruct (getCachedDurationUs p) as [duration noMoreData] eqn:Hq.
    destruct noMoreData; cbn [negb andb].
    + split; [congruence|]. split; [|reflexivity].
      intros _. apply Exists_cons. left. rewrite Hq. auto.
    + destruct (duration <? 2000000) eqn:Hlt.
      * split; [exact IHok|]. rewrite IH, Exists_cons, Hq. cbn [fst snd].
        apply Z.ltb_lt in Hlt. intuition (discriminate || lia).
      * split; [congruence|]. split; [|reflexivity].
        intros _. apply Exists_cons. left. rewrite Hq. cbn [fst snd].
        apply Z.ltb_ge in Hlt. auto.
Qed.

(** The behaviour of [prepare] that the specification describes, where no
    eligible cache has a negative span: it returns at a poll that finds no
    cache eligible (duration reported 0) or the least buffered eligible
    cache at two seconds or more, two seconds being below the ceiling. *)
Lemma prepare_returns_when_warm polls :
  Forall (fun p => forall i s, mSources p !! i = Some (Some s) -> eligible s ->
                               0 <= mCacheDurationUs s) polls ->
  prepare polls = Some OK ->
  2000000 < kMaxCacheDurationUs /\
  Exists (fun p =>
            (none_eligible (mSources p) /\ getCachedDurationUs p = (0, true)) \/
            (exists i s, least_buffered (mSources p) i s /\
                         2000000 <= mCacheDurationUs s)) polls.
Proof.
  intros Hnonneg Hret. split; [reflexivity|].
  apply prepare_run in Hret. rewrite Exists_exists in Hret.
  destruct Hret as (p & Hp & Hexit). apply Exists_exists. exists p.
  split; [exact Hp|]. rewrite Forall_forall in Hnonneg.
  destruct (getCachedDurationUs_nonnegative p (Hnonneg p Hp))
    as [[Hnone Hq]|(i & s & Hleast & Hq)].
  - left. auto.
  - right. exists i, s. split; [exact Hleast|].
    rewrite Hq in Hexit. cbn [fst snd] in Hexit.
    destruct Hexit as [?|?]; [discriminate|assumption].
Qed.

(** *** Registration *)

Lemma for_sources_app {A} (body : nat -> option PS -> A -> A) seen :
  forall i rest acc,
    for_sources body i (seen ++ rest) acc =
      for_sources body (i + length seen) rest (for_sources body i seen acc).
Proof.
  induction seen as [|wp seen IH]; intros i rest acc.
  - cbn [app length for_sources]. rewrite Nat.add_0_r. reflexivity.
  - cbn [app length for_sources]. rewrite IH. f_equal. lia.
Qed.

(** X9: [addSource] appends a fresh cache at the end of the registry and
    returns its position; the entries already there, the flags and what
    the scans of the worker and of the warm-up query find are unchanged, the
    new cache not being started. *)
Theorem addSource_registers_unstarted_cache (source : Src) p :
  exists p',
    addSource source p = Done (length (mSources p)) p' [] /\
    mSources p' =
      mSources p ++ [Some (new_PrefetchedSource (length (mSources p)) source)] /\
    mDone p' = mDone p /\
    mThreadExited p' = mThreadExited p /\
    threadFunc_scan (mSources p') = threadFunc_scan (mSources p) /\
    getCachedDurationUs p' = getCachedDurationUs p.
Proof.
  eexists. split; [reflexivity|]. split; [reflexivity|].
  split; [reflexivity|]. split; [reflexivity|].
  cbn [mSources set_mSources].
  assert (Hscan : threadFunc_scan
                    (mSources p ++
                     [Some (new_PrefetchedSource (length (mSources p)) source)]) =
                  threadFunc_scan (mSources p)).
  { unfold threadFunc_scan. rewrite for_sources_app. cbn [for_sources].
    apply scan_body_ineligible. intros [Hstarted _]. discriminate. }
  split; [exact Hscan|].
  rewrite !getCachedDurationUs_run. cbn [mSources set_mSources].
  rewrite Hscan. reflexivity.
Qed.

(** *** The warm-up query and its polls *)

(** X10: The duration [getCachedDurationUs] returns is never negative and
    always below the ceiling; it is 0 whenever no more data is reported;
    when more data is reported it is the duration of the least buffered
    eligible cache; and without an eligible cache the query reports no more
    data. *)
Theorem getCachedDurationUs_reports_least_buffered p :
  0 <= (getCachedDurationUs p).1 < kMaxCacheDurationUs /\
  ((getCachedDurationUs p).2 = true -> (getCachedDurationUs p).1 = 0) /\
  ((getCachedDurationUs p).2 = false ->
   exists i s, least_buffered (mSources p) i s /\
               mCacheDurationUs s = (getCachedDurationUs p).1) /\
  (none_eligible (mSources p) -> getCachedDurationUs p = (0, true)).
Proof.
  rewrite getCachedDurationUs_run. cbv zeta. cbn [fst snd].
  destruct (threadFunc_scan_result (mSources p))
    as [(Hnone & _ & -> & _)|(i & s & Hleast & _ & -> & _)].
  - cbn. repeat split; try discriminate; try reflexivity.
  - pose proof Hleast as (Hi & (_ & _ & Hlt) & _).
    destruct (mCacheDurationUs s <? 0) eqn:Hneg.
    + apply Z.ltb_lt in Hneg. split; [unfold kMaxCacheDurationUs; lia|].
      split; [reflexivity|]. split; [discriminate|].
      intros Hnone. exfalso. destruct Hleast as (? & Hel & _).
      eapply Hnone; eauto.
    + apply Z.ltb_ge in Hneg. split; [lia|]. split; [discriminate|].
      split; [intros _; eauto|].
      intros Hnone. exfalso. destruct Hleast as (? & Hel & _).
      eapply Hnone; eauto.
Qed.

(** X11: When the first poll of [prepare] finds no eligible cache (an empty
    registry, nothing started, every cache at end-of-stream or at the
    ceiling), [prepare] returns [OK] at once. *)
Theorem prepare_returns_at_once_without_eligible p later :
  none_eligible (mSources p) -> prepare (p :: later) = Some OK.
Proof.
  intros Hnone. cbn [prepare]. rewrite getCachedDurationUs_run. cbv zeta.
  destruct (threadFunc_scan_result (mSources p))
    as [(_ & _ & -> & _)|(i & s & (Hi & Hel & _) & _)]; [reflexivity|].
  exfalso. eapply Hnone; eauto.
Qed.

(** X12: [prepare] has no bound on its polls: as long as every poll finds the
    least buffered eligible cache between 0 and two seconds, it goes on
    polling. *)
Theorem prepare_polls_below_threshold polls :
  Forall (fun p => exists i s, least_buffered (mSources p) i s /\
                               0 <= mCacheDurationUs s < 2000000) polls ->
  prepare polls = None.
Proof.
  induction 1 as [|p later (i & s & Hleast & Hlo & Hhi) _ IH]; [reflexivity|].
  cbn [prepare]. rewrite getCachedDurationUs_run. cbv zeta.
  destruct (threadFunc_scan_result (mSources p))
    as [(Hnone & _)|(i' & s' & Hleast' & _ & -> & _)].
  - exfalso. destruct Hleast as (Hi & Hel & _). eapply Hnone; eauto.
  - destruct (least_buffered_unique _ _ _ _ _ Hleast Hleast') as [_ <-].
    replace (mCacheDurationUs s <? 0) with false
      by (symmetry; apply Z.ltb_ge; lia).
    cbn [negb andb].
    replace (mCacheDurationUs s <? 2000000) with true
      by (symmetry; apply Z.ltb_lt; lia).
    exact IH.
Qed.

(** *** The worker loop *)

Lemma threadFunc_iteration_keeps p step p1 tr :
  mDone p = false ->
  threadFunc_iteration p = Done step p1 tr ->
  step = LoopContinue /\
  mDone p1 = false /\
  mThreadExited p1 = mThreadExited p /\
  length (mSources p1) = length (mSources p) /\
  forall j, mSources p !! j = Some None -> mSources p1 !! j = Some None.
Proof.
  intros Hdone. rewrite (threadFunc_iteration_run p Hdone). cbv zeta.
  destruct (threadFunc_scan_result (mSources p))
    as [(_ & -> & _ & _)|(i & s0 & (Hi & _) & -> & _ & ->)].
  - cbn. intros [= <- <- <-]. auto.
  - replace (Z.of_nat i <? 0) with false by (symmetry; apply Z.ltb_ge; lia).
    rewrite Nat2Z.id.
    destruct (cacheMore s0) as [[] s0' tr0|tr0]; [|discriminate].
    intros [= <- <- <-]. cbn [mDone mThreadExited mSources set_mSources].
    split; [reflexivity|]. split; [exact Hdone|]. split; [reflexivity|].
    split; [apply length_insert|].
    intros j Hj. rewrite list_lookup_insert_ne; [exact Hj|].
    intros <-. congruence.
Qed.

(** X13: The worker leaves its loop only when told: started with [mDone] unset
    and left alone, it is still looping after any number of turns (unless
    a [CHECK] in a fetch has aborted the process), it has set neither
    [mDone] nor [mThreadExited], and the registry has kept its length and
    its unresolvable entries. *)
Theorem worker_runs_until_told turns : forall p exited p' tr,
  mDone p = false ->
  threadFunc turns p = Done exited p' tr ->
  exited = false /\
  mDone p' = false /\
  mThreadExited p' = mThreadExited p /\
  length (mSources p') = length (mSources p) /\
  forall j, mSources p !! j = Some None -> mSources p' !! j = Some None.
Proof.
  induction turns as [|turns IH]; intros p exited p' tr Hdone.
  - intros [= <- <- <-]. auto.
  - cbn [threadFunc]. unfold_monad.
    destruct (threadFunc_iteration p) as [step p1 t1|t1] eqn:Hturn;
      [|discriminate].
    destruct (threadFunc_iteration_keeps _ _ _ _ Hdone Hturn)
      as (-> & Hdone1 & Hexit1 & Hlen1 & Hnone1).
    destruct (threadFunc turns p1) as [exited2 p2 t2|t2] eqn:Hrest;
      [|discriminate].
    intros [= <- <- <-].
    destruct (IH _ _ _ _ Hdone1 Hrest) as (-> & Hdone2 & Hexit2 & Hlen2 & Hnone2).
    split; [reflexivity|]. split; [exact Hdone2|].
    split; [congruence|]. split; [congruence|]. auto.
Qed.

(** *** The shutdown request *)

Lemma stopThread_woken_returned wakeups p tr :
  stopThread_woken wakeups (Done true p tr) = Done true p tr.
Proof. destruct wakeups; reflexivity. Qed.

(** X14: [stopThread] returns only once it finds [mThreadExited] set: at every
    wake-up that finds the worker still running (a spurious one, or one by
    another signal) it sets [mDone] again, signals and goes back to sleep;
    at the first wake-up that finds the worker gone it returns, leaving the
    scheduler as it found it. *)
Theorem stopThread_returns_when_exited p0 pre p1 post :
  Forall (fun p => mThreadExited p = false) (p0 :: pre) ->
  mThreadExited p1 = true ->
  stopThread_woken pre (stopThread p0) =
    Done false (set_mDone true (default p0 (last pre)))
      (mjoin (replicate (S (length pre)) [CondSignal; CondWait])) /\
  stopThread_woken (pre ++ p1 :: post) (stopThread p0) =
    Done true p1 (mjoin (replicate (S (length pre)) [CondSignal; CondWait])).
Proof.
  intros Hrunning Hexited. revert p0 Hrunning.
  induction pre as [|p pre IH]; intros p0 Hrunning;
    apply Forall_cons in Hrunning as [H0 Hpre].
  - assert (Hstop : stopThread p0 =
                    Done false (set_mDone true p0) [CondSignal; CondWait])
      by (unfold stopThread; unfold_monad; rewrite H0; reflexivity).
    assert (Hret : stopThread p1 = Done true p1 [])
      by (unfold stopThread; unfold_monad; rewrite Hexited; reflexivity).
    rewrite Hstop. split; [reflexivity|].
    cbn [app stopThread_woken]. rewrite Hret, stopThread_woken_returned.
    reflexivity.
  - assert (Hstop : stopThread p0 =
                    Done false (set_mDone true p0) [CondSignal; CondWait])
      by (unfold stopThread; unfold_monad; rewrite H0; reflexivity).
    destruct (IH p Hpre) as [Hasleep Hback].
    rewrite Hstop. cbn [app stopThread_woken]. rewrite Hasleep, Hback.
    cbn [after_events length replicate mjoin list_join app].
    rewrite last_cons. destruct (last pre); split; reflexivity.
Qed.

End SchedulerFacts.

(** ** Worked examples on scripted sources *)

(** The scan on [example_registry]: entry 2 wins over entry 0 (more
    buffered), entry 3 (as much, registered later) and the entries that are
    not eligible. *)
Example example_registry_scan :
  minIndex (threadFunc_scan (mSources example_registry)) = 2 /\
  minCacheDurationUs (threadFunc_scan (mSources example_registry)) = 3000000 /\
  getCachedDurationUs example_registry = (3000000, false).
Proof. repeat split; vm_compute; reflexivity. Qed.

(** Registration appends: the handle is the registration index, the cache
    is fresh. *)
Example addSource_twice :
  (addSource (script [frame 1]);; addSource (script [])) new_Prefetcher =
    Done 1%nat
      {| mSources := [Some (new_PrefetchedSource 0 (script [frame 1]));
                      Some (new_PrefetchedSource 1 (script []))];
         mDone := false; mThreadExited := false |} [].
Proof. reflexivity. Qed.

(** The span is an [int64_t] difference, wrap-around included. *)
Example queue_span_example :
  queue_span [stamped 10; stamped 20; stamped 45] = Some 35 /\
  queue_span [stamped 10] = Some 0 /\
  queue_span [stamped 10; unstamped] = None /\
  queue_span [stamped (- 2 ^ 62); stamped (2 ^ 62)] = Some (- 2 ^ 63).
Proof. repeat split; vm_compute; reflexivity. Qed.

Lemma least_buffered_first_witness :
  mDone example_registry = false /\
  eligible (cache_of true false [stamped 0; stamped 5000000] (script [])) /\
  exists i s,
    least_buffered (mSources example_registry) i s /\
    (forall i' s', least_buffered (mSources example_registry) i' s' ->
                   i' = i /\ s' = s) /\
    minIndex (threadFunc_scan (mSources example_registry)) = Z.of_nat i /\
    minSource (threadFunc_scan (mSources example_registry)) = Some s /\
    threadFunc_iteration example_registry =
      match cacheMore s with
      | Done _ s' tr =>
          Done LoopContinue
            (set_mSources (<[i := Some s']> (mSources example_registry))
               example_registry)
            (CondWaitRelative 10000000 :: (InSource i <$> tr))
      | Aborted tr =>
          Aborted (CondWaitRelative 10000000 :: (InSource i <$> tr))
      end.
Proof.
  assert (He : eligible
                 (cache_of true false [stamped 0; stamped 5000000] (script [])))
    by (repeat split; vm_compute; reflexivity).
  split; [reflexivity|]. split; [exact He|].
  exact (proj2 (least_buffered_first example_registry eq_refl) 0%nat _
           eq_refl He).
Defined.

Lemma duration_tracks_queue_witness :
  let s := cache_of true false [stamped 10] (script [frame 25]) in
  let s' := after_calls [CallCacheMore] s in
  cache_step CallCacheMore s (events_of (cacheMore s)) s' /\
  (mCachedBuffers s' <> mCachedBuffers s \/ duration_consistent s) /\
  duration_consistent s' /\
  mCacheDurationUs s' = 15.
Proof.
  cbv zeta.
  assert (Hstep : cache_step CallCacheMore
            (cache_of true false [stamped 10] (script [frame 25]))
            (events_of (cacheMore
               (cache_of true false [stamped 10] (script [frame 25]))))
            (after_calls [CallCacheMore]
               (cache_of true false [stamped 10] (script [frame 25]))))
    by (apply step_cacheMore; vm_compute; reflexivity).
  assert (Hchanged :
            mCachedBuffers
              (after_calls [CallCacheMore]
                 (cache_of true false [stamped 10] (script [frame 25]))) <>
            mCachedBuffers
              (cache_of true false [stamped 10] (script [frame 25])))
    by (vm_compute; discriminate).
  split; [exact Hstep|]. split; [left; exact Hchanged|].
  split; [|vm_compute; reflexivity].
  exact (proj1 duration_tracks_queue _ _ _ _ Hstep (or_introl Hchanged)).
Defined.

(** A seek to 7 on a queue stamped 6, 7, 8: the three buffers are released,
    the reader sleeps on the empty queue, and the next fetch reads the
    source with a seek to 7. *)
Lemma seek_drains_then_applies_once_witness :
  let s := cache_of true false [stamped 6; stamped 7; stamped 8]
             (script [frame 7; frame 8]) in
  let options := Some (setSeekTo 7 no_options) in
  mStarted s = true /\
  options ≫= getSeekTo = Some 7 /\
  0 <= 7 /\
  exists s1,
    read options s =
      Done ReadBlocked s1
        [BufferRelease (stamped 6); BufferRelease (stamped 7);
         BufferRelease (stamped 8); CondWait] /\
    mCachedBuffers s1 = [] /\
    mCacheDurationUs s1 = 0 /\
    source_reads (events_of (cacheMore s1)) = [setSeekTo 7 no_options] /\
    source_reads (events_of (perform_all [CallCacheMore; CallCacheMore] s1)) =
      [setSeekTo 7 no_options; no_options].
Proof.
  cbv zeta. split; [reflexivity|]. split; [reflexivity|]. split; [lia|].
  destruct (seek_drains_then_applies_once
              (Some (setSeekTo 7 no_options)) 7
              (cache_of true false [stamped 6; stamped 7; stamped 8]
                 (script [frame 7; frame 8]))
              eq_refl eq_refl ltac:(lia))
    as (s1 & Hread & _ & Hq & Hdur & _ & _ & Hnext & _).
  exists s1. split; [exact Hread|]. split; [exact Hq|]. split; [exact Hdur|].
  split; [exact Hnext|].
  injection Hread as <-. vm_compute. reflexivity.
Defined.

(** A plain read on an empty queue sleeps through a wake-up that finds
    nothing and returns the buffer the second wake-up finds. *)
Lemma read_blocks_until_ready_witness :
  let s := cache_of true false [] (script []) in
  let s1 := cache_of true false [stamped 3; stamped 4] (script []) in
  mStarted s = true /\
  (forall T, (None : option ReadOptions) ≫= getSeekTo = Some T -> 0 <= T) /\
  read None s = Done ReadBlocked s [CondWait] /\
  exists s',
    read_woken [s; s1] (read None s) =
      Done (ReadReturned OK (Some (stamped 3))) s' [CondWait; CondWait] /\
    mCachedBuffers s' = [stamped 4] /\
    duration_consistent s'.
Proof.
  cbv zeta. split; [reflexivity|]. split; [discriminate|].
  split; [reflexivity|].
  destruct (read_blocks_until_ready None (cache_of true false [] (script []))
              eq_refl ltac:(discriminate))
    as (s0 & tr0 & Hplain & _ & _ & Hready).
  destruct (Hplain eq_refl) as [-> ->].
  assert (Hwait : ~ can_proceed (cache_of true false [] (script []))).
  { intros [Hq|[Heos|Hstop]]; [apply Hq; reflexivity|discriminate..]. }
  apply (Hready [cache_of true false [] (script []);
                 cache_of true false [] (script [])]
           (cache_of true false [stamped 3; stamped 4] (script [])) []
           [cache_of true false [] (script []);
            cache_of true false [stamped 3; stamped 4] (script [])]
           ltac:(reflexivity)
           ltac:(repeat constructor; exact Hwait)
           ltac:(left; discriminate)).
  intros _. repeat constructor; vm_compute; eauto.
Defined.

(** A source that fails with an I/O error: the fetch records
    end-of-stream and the worker carries on. *)
Lemma fetch_error_absorbed_witness :
  let s := cache_of true false [stamped 1] (script [(-1004, None)]) in
  mStarted s = true /\
  source_read (pending_options s) (mSource s) = ((-1004, None), script []) /\
  -1004 <> OK /\
  exists s',
    cacheMore s = Done tt s' [SourceRead no_options; CondSignal] /\
    mReachedEOS s' = true /\
    mCachedBuffers s' = [stamped 1] /\
    ~ eligible s'.
Proof.
  cbv zeta. split; [reflexivity|]. split; [reflexivity|].
  split; [discriminate|].
  destruct (@fetch_error_absorbed _ Script_MediaSource
              (cache_of true false [stamped 1] (script [(-1004, None)]))
              (-1004) None (script []) eq_refl ltac:(reflexivity)
              ltac:(discriminate))
    as (s' & Hfetch & Heos & Hq & _ & Hnot & _).
  exists s'. split; [exact Hfetch|]. split; [exact Heos|].
  split; [exact Hq|exact Hnot].
Defined.

(** Shutdown of [example_registry]: every resolvable entry is notified,
    and a read on entry 0, two buffers queued, gets the older one. *)
Lemma shutdown_unblocks_readers_witness :
  let p := set_mDone true example_registry in
  let s := cache_of true false [stamped 0; stamped 5000000] (script []) in
  mThreadExited example_registry = false /\
  mDone p = true /\
  exists p2 tr,
    threadFunc 1 p = Done true p2 tr /\
    mThreadExited p2 = true /\
    mSources p2 !! 1%nat = Some None /\
    mSources p2 !! 0%nat = Some (Some (set_mPrefetcherStopped true s)) /\
    InSource 0 CondSignal ∈ tr /\
    exists s2,
      read None (set_mPrefetcherStopped true s) =
        Done (ReadReturned OK (Some (stamped 0))) s2 [] /\
      mCachedBuffers s2 = [stamped 5000000].
Proof.
  cbv zeta. split; [reflexivity|]. split; [reflexivity|].
  destruct (shutdown_unblocks_readers example_registry
              (set_mDone true example_registry) 0 eq_refl eq_refl)
    as (_ & _ & p2 & tr & Hrun & Hexited & _ & Hnone & Hsome).
  exists p2, tr. split; [exact Hrun|]. split; [exact Hexited|].
  split; [exact (Hnone 1%nat eq_refl)|].
  destruct (Hsome 0%nat _ eq_refl) as (Hentry & Hsignal & Hreads).
  split; [exact Hentry|]. split; [exact Hsignal|].
  assert (Hq : queue_stamped [stamped 0; stamped 5000000])
    by (intros _; repeat constructor; vm_compute; eauto).
  destruct (Hreads [] [] _ (run_nil _) Hq eq_refl) as [_ Hread].
  exact (Hread None ltac:(discriminate)).
Defined.

(** A started cache that never fetched, once notified: a plain read and a
    read with a seek both return end-of-stream. *)
Example read_never_fetched_after_shutdown :
  let s := set_mPrefetcherStopped true (cache_of true false [] (script [])) in
  read None s = Done (ReadReturned ERROR_END_OF_STREAM None) s [] /\
  value_of (read (Some (setSeekTo 3 no_options)) s) =
    Some (ReadReturned ERROR_END_OF_STREAM None).
Proof. split; vm_compute; reflexivity. Qed.

(** A source whose [start] fails with an I/O error. *)
Lemma start_forwards_and_reports_witness :
  let sc := {| start_reply := -1004; stop_reply := OK; replies := [] |} in
  let s := new_PrefetchedSource 0 sc in
  source_start None (mSource s) = (-1004, sc) /\
  start None s = Done (-1004) (set_mSource sc s) [SourceStart None] /\
  mStarted (set_mSource sc s) = false.
Proof.
  cbv zeta. split; [reflexivity|].
  exact (proj1 (proj2 (start_forwards_and_reports None
                         (new_PrefetchedSource 0
                            {| start_reply := -1004; stop_reply := OK;
                               replies := [] |})
                         (-1004) _ eq_refl) eq_refl)
           ltac:(discriminate)).
Defined.

(** A fresh cache, started, on which the consumer already sleeps in [read]
    when the worker first fetches. *)
Lemma first_fetch_seeks_to_zero_witness :
  let s0 := new_PrefetchedSource 0 (script [frame 0; frame 40]) in
  let cs := [CallStart None; CallRead None] in
  let s1 := after_calls cs s0 in
  cache_run s0 cs (events_of (perform_all cs s0)) s1 /\
  Forall (fun c => ~ requests_seek c /\ c <> CallCacheMore) cs /\
  mStarted s1 = true /\
  source_reads (events_of (cacheMore s1)) = [setSeekTo 0 no_options] /\
  source_reads (events_of (perform_all [CallCacheMore; CallCacheMore] s1)) =
    [setSeekTo 0 no_options; no_options].
Proof.
  cbv zeta.
  assert (Hrun : cache_run (new_PrefetchedSource 0 (script [frame 0; frame 40]))
                   [CallStart None; CallRead None]
                   (events_of
                      (perform_all [CallStart None; CallRead None]
                         (new_PrefetchedSource 0 (script [frame 0; frame 40]))))
                   (after_calls [CallStart None; CallRead None]
                      (new_PrefetchedSource 0 (script [frame 0; frame 40]))))
    by (apply perform_all_sound; vm_compute; reflexivity).
  assert (Hquiet : Forall (fun c => ~ requests_seek c /\ c <> CallCacheMore)
                     [CallStart None; CallRead None]).
  { repeat constructor; try discriminate; cbn; try tauto.
    intros [x Hx]. discriminate Hx. }
  split; [exact Hrun|]. split; [exact Hquiet|]. split; [reflexivity|].
  split; [|vm_compute; reflexivity].
  exact (proj1 (proj2 (proj2
           (first_fetch_seeks_to_zero _ _ _ _ _ Hrun Hquiet eq_refl)))).
Defined.

(** A source that delivers a buffer without a timestamp: queued when the
    queue is empty, fatal when it is not. *)
Lemma timestamp_assertion_needs_stamped_source_witness :
  let sc := script [(OK, Some unstamped)] in
  let s := cache_of true false [] sc in
  let s1 := cache_of true false [stamped 9] sc in
  mStarted s = true /\
  source_read (pending_options s) (mSource s) = ((OK, Some unstamped), script []) /\
  (exists s' tr, cacheMore s = Done tt s' tr /\
                 mCachedBuffers s' = [copy_buffer unstamped]) /\
  timestamp (copy_buffer unstamped) = None /\
  exists tr, cacheMore s1 = Aborted tr.
Proof.
  cbv zeta. split; [reflexivity|]. split; [reflexivity|].
  destruct (@timestamp_assertion_needs_stamped_source _ Script_MediaSource
              (cache_of true false [] (script [(OK, Some unstamped)]))
              unstamped (script []) eq_refl ltac:(reflexivity))
    as (_ & Hcopy & Hempty & _).
  destruct (@timestamp_assertion_needs_stamped_source _ Script_MediaSource
              (cache_of true false [stamped 9] (script [(OK, Some unstamped)]))
              unstamped (script []) eq_refl ltac:(reflexivity))
    as (_ & _ & _ & Hfatal & _).
  split; [exact (Hempty eq_refl)|]. split; [rewrite Hcopy; reflexivity|].
  apply Hfatal; [discriminate|left; reflexivity].
Defined.

(** C8: [prepare] is meant to return only when the least buffered eligible
    cache holds two seconds or no cache is eligible, and it does where spans
    are not negative ([prepare_returns_when_warm]).  [getCachedDurationUs]
    however takes a negative minimum for "none eligible", where the scan of
    [threadFunc] tests the index it found.  A cache that has fetched a
    buffer stamped 5 and then one stamped 4 buffers -1: it is eligible and
    the worker selects it, yet the query reports no more data with duration
    0 and [prepare] returns at once. *)
Theorem prepare_takes_negative_span_for_no_data :
  cache_run (new_PrefetchedSource 0 backwards_source)
    [CallStart None; CallCacheMore; CallCacheMore]
    (events_of
       (perform_all [CallStart None; CallCacheMore; CallCacheMore]
          (new_PrefetchedSource 0 backwards_source)))
    backwards_cache /\
  mCachedBuffers backwards_cache = [stamped 5; stamped 4] /\
  mCacheDurationUs backwards_cache = -1 /\
  duration_consistent backwards_cache /\
  least_buffered (mSources backwards_registry) 0 backwards_cache /\
  minIndex (threadFunc_scan (mSources backwards_registry)) = 0 /\
  getCachedDurationUs backwards_registry = (0, true) /\
  prepare [backwards_registry] = Some OK.
Proof.
  assert (Hel : eligible backwards_cache)
    by (repeat split; vm_compute; reflexivity).
  split; [apply perform_all_sound; vm_compute; reflexivity|].
  split; [vm_compute; reflexivity|]. split; [vm_compute; reflexivity|].
  split; [apply queue_span_consistent; vm_compute; reflexivity|].
  split.
  { split; [reflexivity|]. split; [exact Hel|].
    intros [|j] sj Hj Hsj; [|destruct j; discriminate].
    injection Hj as <-. split; lia. }
  repeat split; vm_compute; reflexivity.
Qed.

(** ** Further worked examples *)

(** A source whose [stop] fails: the two queued buffers are released and
    the cache is not started all the same. *)
Lemma stop_releases_and_reports_witness :
  let sc := {| start_reply := OK; stop_reply := -1004; replies := [] |} in
  let s := cache_of true true [stamped 1; stamped 2] sc in
  source_stop (mSource s) = (-1004, sc) /\
  mStarted s = true /\
  exists s',
    stop s =
      Done (-1004) s'
        [BufferRelease (stamped 1); BufferRelease (stamped 2); SourceStop] /\
    mStarted s' = false /\
    mCachedBuffers s' = [] /\
    mReachedEOS s' = true.
Proof.
  cbv zeta. split; [reflexivity|]. split; [reflexivity|].
  destruct (proj2 (@stop_releases_and_reports _ Script_MediaSource
                     (cache_of true true [stamped 1; stamped 2]
                        {| start_reply := OK; stop_reply := -1004;
                           replies := [] |})
                     (-1004) _ ltac:(reflexivity)) eq_refl)
    as (s' & Hstop & _ & Hoff & Hq & _ & _ & Heos & _).
  exists s'. split; [exact Hstop|]. split; [exact Hoff|].
  split; [exact Hq|exact Heos].
Defined.

(** A cache at end-of-stream, stopped, restarted and fetched on again:
    still at end-of-stream. *)
Lemma end_of_stream_sticks_witness :
  let s := cache_of true true [] (script [frame 1]) in
  let cs := [CallStop; CallStart None; CallCacheMore] in
  let s' := after_calls cs s in
  cache_run s cs (events_of (perform_all cs s)) s' /\
  Forall (fun c => ~ requests_seek c) cs /\
  mReachedEOS s = true /\
  mStarted s' = true /\
  mCachedBuffers s' = [stamped 1] /\
  mReachedEOS s' = true /\
  ~ eligible s'.
Proof.
  cbv zeta.
  assert (Hrun : cache_run (cache_of true true [] (script [frame 1]))
                   [CallStop; CallStart None; CallCacheMore]
                   (events_of
                      (perform_all [CallStop; CallStart None; CallCacheMore]
                         (cache_of true true [] (script [frame 1]))))
                   (after_calls [CallStop; CallStart None; CallCacheMore]
                      (cache_of true true [] (script [frame 1]))))
    by (apply perform_all_sound; vm_compute; reflexivity).
  assert (Hquiet : Forall (fun c => ~ requests_seek c)
                     [CallStop; CallStart None; CallCacheMore])
    by (repeat constructor; cbn; tauto).
  split; [exact Hrun|]. split; [exact Hquiet|]. split; [reflexivity|].
  split; [reflexivity|]. split; [vm_compute; reflexivity|].
  destruct (end_of_stream_sticks (cache_of true true [] (script [frame 1]))
              _ _ _ Hrun Hquiet eq_refl)
    as (Heos & Hnot & _).
  split; [exact Heos|exact Hnot].
Defined.

(** A cache destroyed while started, two buffers queued. *)
Lemma destroy_releases_everything_witness :
  let s0 := new_PrefetchedSource 0 (script [frame 1; frame 2]) in
  let cs := [CallStart None; CallCacheMore; CallCacheMore] in
  let s := after_calls cs s0 in
  cache_run s0 cs (events_of (perform_all cs s0)) s /\
  mCachedBuffers s = [stamped 1; stamped 2] /\
  exists s' tr',
    destroy s = Done tt s' tr' /\
    released tr' = [stamped 1; stamped 2] /\
    mCachedBuffers s' = [] /\
    SourceStop ∈ tr'.
Proof.
  cbv zeta.
  assert (Hrun : cache_run
                   (new_PrefetchedSource 0 (script [frame 1; frame 2]))
                   [CallStart None; CallCacheMore; CallCacheMore]
                   (events_of
                      (perform_all [CallStart None; CallCacheMore; CallCacheMore]
                         (new_PrefetchedSource 0 (script [frame 1; frame 2]))))
                   (after_calls [CallStart None; CallCacheMore; CallCacheMore]
                      (new_PrefetchedSource 0 (script [frame 1; frame 2]))))
    by (apply perform_all_sound; vm_compute; reflexivity).
  assert (Hq : mCachedBuffers
                 (after_calls [CallStart None; CallCacheMore; CallCacheMore]
                    (new_PrefetchedSource 0 (script [frame 1; frame 2]))) =
               [stamped 1; stamped 2])
    by (vm_compute; reflexivity).
  split; [exact Hrun|]. split; [exact Hq|].
  destruct (destroy_releases_everything _ _ _ _ _ Hrun)
    as (_ & s' & tr' & Hdestroy & Hrel & Hempty & _ & Hstop).
  exists s', tr'. split; [exact Hdestroy|].
  split; [rewrite Hrel; exact Hq|]. split; [exact Hempty|].
  apply Hstop. reflexivity.
Defined.

(** A buffer of five bytes whose range is the three in the middle, with a
    timestamp and one more metadata entry. *)
Lemma copy_buffer_keeps_range_and_timestamp_witness :
  let b := {| data := [10; 11; 12; 13; 14]; range_offset := 1%nat;
              range_length := 3%nat;
              meta_data := <[7%N := 99]> {[ kKeyTime := 42 ]} |} in
  (range_offset b + range_length b <= length (data b))%nat /\
  data (copy_buffer b) = [11; 12; 13] /\
  range_offset (copy_buffer b) = 0%nat /\
  meta_data (copy_buffer b) !! kKeyTime = Some 42 /\
  meta_data (copy_buffer b) !! 7%N = None.
Proof.
  cbv zeta.
  assert (Hrange : (1 + 3 <= 5)%nat) by lia.
  split; [exact Hrange|].
  destruct (copy_buffer_keeps_range_and_timestamp
              {| data := [10; 11; 12; 13; 14]; range_offset := 1%nat;
                 range_length := 3%nat;
                 meta_data := <[7%N := 99]> {[ kKeyTime := 42 ]} |} Hrange)
    as (Hdata & _ & Hoff & _ & Hmeta).
  split; [exact Hdata|]. split; [exact Hoff|].
  split; [rewrite Hmeta; vm_compute; reflexivity|].
  rewrite Hmeta. vm_compute. reflexivity.
Defined.

(** A seek on a cache at end-of-stream that buffers twelve seconds. *)
Lemma seek_makes_eligible_witness :
  let s := cache_of true true [stamped 0; stamped 12000000] (script []) in
  let options := Some (setSeekTo 0 no_options) in
  let s' := after_calls [CallRead options] s in
  ~ eligible s /\
  options ≫= getSeekTo = Some 0 /\
  read options s =
    Done ReadBlocked s'
      [BufferRelease (stamped 0); BufferRelease (stamped 12000000); CondWait] /\
  eligible s'.
Proof.
  cbv zeta.
  assert (Hread : read (Some (setSeekTo 0 no_options))
                    (cache_of true true [stamped 0; stamped 12000000] (script [])) =
                  Done ReadBlocked
                    (after_calls [CallRead (Some (setSeekTo 0 no_options))]
                       (cache_of true true [stamped 0; stamped 12000000]
                          (script [])))
                    [BufferRelease (stamped 0);
                     BufferRelease (stamped 12000000); CondWait])
    by (vm_compute; reflexivity).
  split; [intros (_ & Heos & _); discriminate|].
  split; [reflexivity|]. split; [exact Hread|].
  exact (proj1 (seek_makes_eligible (Some (setSeekTo 0 no_options)) 0 _ _ _ _
                  eq_refl Hread)).
Defined.

(** Timestamps at the two ends of the non-negative [int64_t] range. *)
Lemma ordered_timestamps_give_exact_span_witness :
  let s := cache_of true false [stamped 0; stamped 5; stamped int64_max]
             (script []) in
  (2 <= length (mCachedBuffers s))%nat /\
  head (mCachedBuffers s) ≫= timestamp = Some 0 /\
  last (mCachedBuffers s) ≫= timestamp = Some int64_max /\
  updateCacheDuration_l s =
    Done tt (set_mCacheDurationUs (int64_max - 0) s) [].
Proof.
  cbv zeta.
  assert (Hlen : (2 <= 3)%nat) by lia.
  split; [exact Hlen|]. split; [reflexivity|]. split; [reflexivity|].
  exact (proj1 (ordered_timestamps_give_exact_span
                  (cache_of true false [stamped 0; stamped 5; stamped int64_max]
                     (script []))
                  0 int64_max Hlen ltac:(reflexivity) ltac:(reflexivity)
                  ltac:(lia) ltac:(unfold int64_max; lia) ltac:(lia))).
Defined.


(** A cache at end-of-stream with two buffers left, read four times. *)
Lemma backlog_then_end_of_stream_witness :
  let s := cache_of true true [stamped 1; stamped 2] (script []) in
  mStarted s = true /\
  (mReachedEOS s = true \/ mPrefetcherStopped s = true) /\
  queue_stamped (mCachedBuffers s) /\
  exists s',
    read_n 4 s =
      Done [ReadReturned OK (Some (stamped 1));
            ReadReturned OK (Some (stamped 2));
            ReadReturned ERROR_END_OF_STREAM None;
            ReadReturned ERROR_END_OF_STREAM None] s' [] /\
    mCachedBuffers s' = [].
Proof.
  cbv zeta.
  assert (Hq : queue_stamped [stamped 1; stamped 2])
    by (intros _; repeat constructor; vm_compute; eauto).
  split; [reflexivity|]. split; [left; reflexivity|]. split; [exact Hq|].
  exact (backlog_then_end_of_stream
           (cache_of true true [stamped 1; stamped 2] (script [])) 2
           eq_refl (or_introl eq_refl) Hq).
Defined.

(** The query on [example_registry] and on [backwards_registry]. *)
Lemma getCachedDurationUs_reports_least_buffered_witness :
  (getCachedDurationUs example_registry).2 = false /\
  (exists i s, least_buffered (mSources example_registry) i s /\
               mCacheDurationUs s = 3000000) /\
  (getCachedDurationUs backwards_registry).2 = true /\
  (getCachedDurationUs backwards_registry).1 = 0.
Proof.
  assert (Hmore : (getCachedDurationUs example_registry).2 = false)
    by (vm_compute; reflexivity).
  assert (Hnone : (getCachedDurationUs backwards_registry).2 = true)
    by (vm_compute; reflexivity).
  split; [exact Hmore|]. split.
  - exact (proj1 (proj2 (proj2
             (getCachedDurationUs_reports_least_buffered example_registry)))
             Hmore).
  - split; [exact Hnone|].
    exact (proj1 (proj2
             (getCachedDurationUs_reports_least_buffered backwards_registry))
             Hnone).
Defined.

(** [prepare] on a scheduler without sources. *)
Lemma prepare_returns_at_once_without_eligible_witness :
  none_eligible (mSources (@new_Prefetcher Script)) /\
  prepare [@new_Prefetcher Script; example_registry] = Some OK.
Proof.
  assert (Hnone : none_eligible (mSources (@new_Prefetcher Script)))
    by (intros j sj Hj; discriminate).
  split; [exact Hnone|].
  exact (prepare_returns_at_once_without_eligible _ _ Hnone).
Defined.

(** [prepare] polling a scheduler whose only cache buffers one second. *)
Lemma prepare_polls_below_threshold_witness :
  let p := {| mSources :=
                [Some (cache_of true false [stamped 0; stamped 1000000]
                         (script []))];
              mDone := false; mThreadExited := false |} in
  Forall (fun p => exists i s, least_buffered (mSources p) i s /\
                               0 <= mCacheDurationUs s < 2000000) [p; p; p] /\
  prepare [p; p; p] = None.
Proof.
  cbv zeta.
  assert (Hpoll : exists i s,
            least_buffered
              [Some (cache_of true false [stamped 0; stamped 1000000]
                       (script []))] i s /\
            0 <= mCacheDurationUs s < 2000000).
  { exists 0%nat, (cache_of true false [stamped 0; stamped 1000000] (script [])).
    split; [|split; vm_compute; congruence].
    split; [reflexivity|]. split; [repeat split; vm_compute; reflexivity|].
    intros [|j] sj Hj Hsj; [|destruct j; discriminate].
    injection Hj as <-. split; lia. }
  assert (Hall : Forall
            (fun p : Prefetcher Script =>
               exists i s, least_buffered (mSources p) i s /\
                           0 <= mCacheDurationUs s < 2000000)
            (replicate 3
               {| mSources :=
                    [Some (cache_of true false [stamped 0; stamped 1000000]
                             (script []))];
                  mDone := false; mThreadExited := false |}))
    by (repeat constructor; exact Hpoll).
  split; [exact Hall|].
  exact (prepare_polls_below_threshold _ Hall).
Defined.

(** Three turns of the worker on a scheduler with one fresh, started cache
    over a source that delivers two buffers and then fails. *)
Lemma worker_runs_until_told_witness :
  let p := {| mSources :=
                [None;
                 Some (set_mStarted true
                         (new_PrefetchedSource 1
                            (script [frame 0; frame 1000000])))];
              mDone := false; mThreadExited := false |} in
  mDone p = false /\
  exists p' tr,
    threadFunc 3 p = Done false p' tr /\
    mDone p' = false /\
    mThreadExited p' = false /\
    length (mSources p') = 2%nat /\
    mSources p' !! 0%nat = Some None.
Proof.
  cbv zeta. split; [reflexivity|].
  destruct (threadFunc 3
              {| mSources :=
                   [None;
                    Some (set_mStarted true
                            (new_PrefetchedSource 1
                               (script [frame 0; frame 1000000])))];
                 mDone := false; mThreadExited := false |})
    as [exited p' tr|tr] eqn:Hrun; [|vm_compute in Hrun; discriminate].
  match type of Hrun with
  | threadFunc _ ?p = _ => assert (Hd : mDone p = false) by reflexivity
  end.
  destruct (worker_runs_until_told _ _ _ _ _ Hd Hrun)
    as (-> & Hdone & Hexit & Hlen & Hnone).
  exists p', tr. split; [reflexivity|]. split; [exact Hdone|].
  split; [exact Hexit|]. split; [exact Hlen|]. exact (Hnone 0%nat eq_refl).
Defined.

(** A requester woken once while the worker still runs, then once after it
    has exited. *)
Lemma stopThread_returns_when_exited_witness :
  let p1 := set_mThreadExited true (set_mDone true example_registry) in
  Forall (fun p : Prefetcher Script => mThreadExited p = false)
    [example_registry; set_mDone true example_registry] /\
  mThreadExited p1 = true /\
  stopThread_woken [set_mDone true example_registry; p1]
    (stopThread example_registry) =
    Done true p1 [CondSignal; CondWait; CondSignal; CondWait].
Proof.
  cbv zeta.
  assert (Hrunning : Forall (fun p : Prefetcher Script => mThreadExited p = false)
                       [example_registry; set_mDone true example_registry])
    by (repeat constructor).
  split; [exact Hrunning|]. split; [reflexivity|].
  exact (proj2 (stopThread_returns_when_exited example_registry
                  [set_mDone true example_registry]
                  (set_mThreadExited true (set_mDone true example_registry))
                  [] Hrunning eq_refl)).
Defined.
